(** * Scaffold orthogonality: a shallow embedding of [Scaffold_Orthogonality.py]

    The development follows the script top-down: the Python primitives the
    script relies on (slicing, [str.upper], [str.strip], [readline], [for]
    loops over [range], exceptions), then the script's own functions
    ([proc_infile], [complement], [circularise_sc], [is_match],
    [check_ortho]), and finally the properties of the scoring algorithm.

    A string is a list of characters, each an 8-bit code point, and
    [str.upper] acts on the letters a to z.  An opened file is its decoded
    text, read in text mode with universal newlines, or a file whose bytes
    the text layer cannot decode.  Python integers are unbounded and are
    modelled by [Z]. *)

From Stdlib Require Import Ascii String.
From Stdlib Require Import List ZArith Lia Bool.
Import ListNotations.
Local Open Scope Z_scope.

(** ** Python primitives *)

Definition str := list ascii.

(** String literals of the script. *)
Definition py (s : string) : str := list_ascii_of_string s.

Definition len {A : Type} (s : list A) : Z := Z.of_nat (length s).

(** [sum(l)] on a list of integers. *)
Definition sum (l : list Z) : Z := fold_right Z.add 0 l.

(** [range(k)] for a length [k]. *)
Definition range (k : nat) : list Z := map Z.of_nat (seq 0 k).

(** Equality of two strings, [seg1 == seg2]. *)
Fixpoint str_eqb (s t : str) : bool :=
  match s, t with
  | [], [] => true
  | c :: s', d :: t' => Ascii.eqb c d && str_eqb s' t'
  | _, _ => false
  end.

Module Slice.

(** Index adjustment of a slice bound for a positive step: a negative
    bound counts from the end, and the result is clipped to [0, len]. *)
Definition adjust_fwd (l i : Z) : Z :=
  if i <? 0 then Z.max 0 (i + l) else Z.min i l.

(** Index adjustment for a negative step: clipped to [-1, len - 1]. *)
Definition adjust_bwd (l i : Z) : Z :=
  if i <? 0 then Z.max (-1) (i + l) else Z.min i (l - 1).

(** [s[start:stop]] *)
Definition slice (s : str) (start stop : Z) : str :=
  let a := adjust_fwd (len s) start in
  let b := adjust_fwd (len s) stop in
  firstn (Z.to_nat (b - a)) (skipn (Z.to_nat a) s).

(** [s[:stop]] *)
Definition slice_to (s : str) (stop : Z) : str := slice s 0 stop.

(** [s[start:stop:-1]]: the characters at indices [start], [start - 1],
    ..., [stop + 1] after adjustment, in that order. *)
Definition slice_rev (s : str) (start stop : Z) : str :=
  let a := adjust_bwd (len s) start in
  let b := adjust_bwd (len s) stop in
  rev (firstn (Z.to_nat (a - b)) (skipn (Z.to_nat (b + 1)) s)).

End Slice.
Export Slice.

Module Text.

Definition LF : ascii := ascii_of_nat 10.
Definition CR : ascii := ascii_of_nat 13.

(** The characters that end a line of a file opened in text mode. *)
Definition is_newline (c : ascii) : bool := Ascii.eqb c LF || Ascii.eqb c CR.

(** [c.upper()] on an ASCII character. *)
Definition upper_char (c : ascii) : ascii :=
  let k := nat_of_ascii c in
  if (Nat.leb 97 k && Nat.leb k 122)%bool then ascii_of_nat (k - 32) else c.

(** [s.upper()] *)
Definition upper (s : str) : str := map upper_char s.

(** [c in chars] *)
Definition mem (c : ascii) (chars : str) : bool :=
  existsb (Ascii.eqb c) chars.

Fixpoint lstrip (chars s : str) : str :=
  match s with
  | [] => []
  | c :: s' => if mem c chars then lstrip chars s' else s
  end.

(** [s.strip(chars)]: removes leading and trailing characters that
    belong to [chars]. *)
Definition strip (chars s : str) : str :=
  rev (lstrip chars (rev (lstrip chars s))).

(** [set(s).issubset(set(t))] *)
Definition issubset (s t : str) : bool := forallb (fun c => mem c t) s.

(** [readline] on the decoded text that remains unread, with universal
    newlines as [open(path)] sets them up: a line ends at a line feed, at
    a carriage return followed by a line feed, or at a carriage return
    alone, and each of these endings is delivered as one line feed.  The
    result is the line and the text that remains unread. *)
Fixpoint readline (unread : str) : str * str :=
  match unread with
  | [] => ([], [])
  | c :: rest =>
      if Ascii.eqb c LF then ([LF], rest)
      else if Ascii.eqb c CR then
        ([LF], match rest with
               | d :: rest' => if Ascii.eqb d LF then rest' else rest
               | [] => []
               end)
      else let (line, rest') := readline rest in (c :: line, rest')
  end.

End Text.
Export Text.

(** ** Exceptions and loops *)

Inductive exn : Type :=
| KeyError (key : ascii)
| SystemExit (code : Z)
| UnicodeDecodeError.

Inductive res (A : Type) : Type :=
| Ok (a : A)
| Raise (e : exn).
Arguments Ok {A} a.
Arguments Raise {A} e.

Definition bind {A B : Type} (c : res A) (k : A -> res B) : res B :=
  match c with
  | Ok a => k a
  | Raise e => Raise e
  end.

Notation "x <- c ;; k" := (bind c (fun x => k))
  (at level 61, c at next level, right associativity).

(** [for x in xs: body], threading the local variables [S]. *)
Fixpoint for_each {A S : Type} (xs : list A) (body : A -> S -> res S) (s : S)
  : res S :=
  match xs with
  | [] => Ok s
  | x :: xs' => s' <- body x s ;; for_each xs' body s'
  end.

(** The value of [count_RC]: an integer, or the float [nan]. *)
Inductive num : Type :=
| Int (z : Z)
| NaN.

Definition nan : num := NaN.

(** [x + k] and [x - k] for an integer [k]; [nan] absorbs. *)
Definition num_add (x : num) (k : Z) : num :=
  match x with Int z => Int (z + k) | NaN => NaN end.

Definition num_sub (x : num) (k : Z) : num :=
  match x with Int z => Int (z - k) | NaN => NaN end.

(** ** The script *)

Definition REVERSE (base : ascii) : option ascii :=
  if Ascii.eqb base "A" then Some "T"%char
  else if Ascii.eqb base "T" then Some "A"%char
  else if Ascii.eqb base "G" then Some "C"%char
  else if Ascii.eqb base "C" then Some "G"%char
  else None.

Record Project : Type := mkProject {
  folder : string;
  sc1_path : string;
  sc2_path : string;
  n : Z;
  is_linear : bool;
  get_rev_compl : bool
}.

(** A file object returned by [open(path)]: the decoded characters that
    remain unread, or a file whose bytes the text layer cannot decode. *)
Inductive text_file : Type :=
| Text (unread : str)
| Undecodable.

(** [file.readline()]: the line and the file after the read, or the
    exception of the decoder. *)
Definition file_readline (file : text_file) : res (str * text_file) :=
  match file with
  | Text unread =>
      let (line, rest) := readline unread in Ok (line, Text rest)
  | Undecodable => Raise UnicodeDecodeError
  end.

(** [proc_infile] of [parse_scaffolds].  The result pairs what was printed
    with the outcome; [exit(0)] is the exception [SystemExit 0]. *)
Definition proc_infile (file : text_file) : list string * res str :=
  match file_readline file with
  | Raise e => ([], Raise e)
  | Ok (line, _) =>
      let sc_str := strip [LF] (upper line) in
      let is_not_ATGC := negb (issubset sc_str (py "ATGC")) in
      if is_not_ATGC then (["faulty sequence"%string], Raise (SystemExit 0))
      else ([], Ok sc_str)
  end.

(** The loop of [complement]: each iteration looks [base] up in [REVERSE]
    and rebinds the loop variable; nothing is written to [segment]. *)
Fixpoint complement_loop (segment : str) : res unit :=
  match segment with
  | [] => Ok tt
  | base :: rest =>
      match REVERSE base with
      | Some _ => complement_loop rest
      | None => Raise (KeyError base)
      end
  end.

Definition complement (segment : str) : res str :=
  _ <- complement_loop segment ;; Ok segment.

Definition circularise_sc (project : Project) (sc1 sc2 : str) : str * str :=
  if is_linear project then (sc1, sc2)
  else (sc1 ++ slice_to sc1 (n project), sc2 ++ slice_to sc2 (n project)).

Definition is_match (seg1 seg2 : str) (project : Project) : bool :=
  str_eqb seg1 seg2 && (len seg1 =? n project).

(** The local variables of [check_ortho] that the loops update. *)
Module Vars.
Record t : Type := mk {
  count : Z;
  count_RC : num;
  n_count : list Z;
  n_count_RC : list Z;
  repeat_count : Z;
  repeat_count_RC : Z
}.
End Vars.

(** The dictionary returned by [check_ortho], one field per key. *)
Record Output : Type := mkOutput {
  count : Z;
  count_revcompl : num;
  count_corrected : Z;
  count_revcompl_corrected : num;
  n_count : list Z;
  n_count_revcompl : list Z
}.

(** Body of the inner loop, [for i in range(len(sc2))]; the inner index is
    called [j] here, the outer one is not read after the inner loop. *)
Definition inner_body (project : Project) (sc1_seg sc2_full : str)
  (j : Z) (v : Vars.t) : res Vars.t :=
  let sc2_seg := slice sc2_full j (j + n project) in
  let v :=
    if is_match sc1_seg sc2_seg project
    then Vars.mk (Vars.count v + 1) (Vars.count_RC v)
                 (Vars.n_count v) (Vars.n_count_RC v)
                 (Vars.repeat_count v + 1) (Vars.repeat_count_RC v)
    else v in
  if get_rev_compl project then
    sc2_seg_RC <- complement (slice_rev sc2_full (j + n project) j) ;;
    Ok (if is_match sc1_seg sc2_seg_RC project
        then Vars.mk (Vars.count v) (num_add (Vars.count_RC v) 1)
                     (Vars.n_count v) (Vars.n_count_RC v)
                     (Vars.repeat_count v) (Vars.repeat_count_RC v + 1)
        else v)
  else Ok v.

(** Body of the outer loop, [for i in range(len(sc1))]. *)
Definition outer_body (project : Project) (sc1_full sc2_full : str)
  (len_sc2 : nat) (i : Z) (v : Vars.t) : res Vars.t :=
  let v := Vars.mk (Vars.count v) (Vars.count_RC v)
                   (Vars.n_count v) (Vars.n_count_RC v) 0 0 in
  let sc1_seg := slice sc1_full i (i + n project) in
  v <- for_each (range len_sc2) (inner_body project sc1_seg sc2_full) v ;;
  let v :=
    if 1 <? Vars.repeat_count v
    then Vars.mk (Vars.count v) (Vars.count_RC v)
                 (Vars.n_count v ++ [Vars.repeat_count v]) (Vars.n_count_RC v)
                 (Vars.repeat_count v) (Vars.repeat_count_RC v)
    else v in
  let v :=
    if 1 <? Vars.repeat_count_RC v
    then Vars.mk (Vars.count v) (Vars.count_RC v)
                 (Vars.n_count v) (Vars.n_count_RC v ++ [Vars.repeat_count_RC v])
                 (Vars.repeat_count v) (Vars.repeat_count_RC v)
    else v in
  Ok v.

Definition check_ortho (sc1 sc2 : str) (project : Project) : res Output :=
  let count := 0 in
  let count_RC := if get_rev_compl project then Int 0 else nan in
  let '(sc1_full, sc2_full) := circularise_sc project sc1 sc2 in
  v <- for_each (range (length sc1))
         (outer_body project sc1_full sc2_full (length sc2))
         (Vars.mk count count_RC [] [] 0 0) ;;
  let count_corrected :=
    Vars.count v - (sum (Vars.n_count v) - len (Vars.n_count v)) in
  let count_revcompl_corrected :=
    num_sub (Vars.count_RC v)
            (sum (Vars.n_count_RC v) - len (Vars.n_count_RC v)) in
  Ok (mkOutput (Vars.count v) (Vars.count_RC v)
               count_corrected count_revcompl_corrected
               (Vars.n_count v) (Vars.n_count_RC v)).

(** Outcome of the code that opens files: a value, an exception raised
    while an opened file is read and checked, or the [OSError] of an
    [open] that fails. *)
Inductive io_res (A : Type) : Type :=
| Done (a : A)
| Raised (e : exn)
| OSError (path : string).
Arguments Done {A} a.
Arguments Raised {A} e.
Arguments OSError {A} path.

Section Files.

(** [folder / name] of [pathlib], and the files that [open] finds: the
    file object for a path, if the path can be opened. *)
Variable joinpath : string -> string -> string.
Variable open_file : string -> option text_file.

(** [parse_scaffolds]: the second file is opened only after the first one
    has been read and checked.  The result pairs what was printed with
    the outcome. *)
Definition parse_scaffolds (project : Project)
  : list string * io_res (str * str) :=
  let path_sc1 := joinpath (folder project) (sc1_path project) in
  let path_sc2 := joinpath (folder project) (sc2_path project) in
  match open_file path_sc1 with
  | None => ([], OSError path_sc1)
  | Some sc1_file =>
      match proc_infile sc1_file with
      | (out1, Raise e) => (out1, Raised e)
      | (out1, Ok sc1) =>
          match open_file path_sc2 with
          | None => (out1, OSError path_sc2)
          | Some sc2_file =>
              match proc_infile sc2_file with
              | (out2, Raise e) => (out1 ++ out2, Raised e)
              | (out2, Ok sc2) => (out1 ++ out2, Done (sc1, sc2))
              end
          end
      end
  end.

End Files.

(** ** Vocabulary of the properties *)

(** A validated sequence: what the check of [proc_infile] lets through. *)
Definition validated (s : str) : Prop := issubset s (py "ATGC") = true.

Definition base_ok (c : ascii) : Prop := mem c (py "ATGC") = true.

Definition no_LF (s : str) : Prop :=
  Forall (fun c => Ascii.eqb c LF = false) s.

(** A text without line ending. *)
Definition one_line (s : str) : Prop :=
  Forall (fun c => is_newline c = false) s.

(** The text of a file before its first line ending, be it a line feed
    or a carriage return. *)
Fixpoint first_line (text : str) : str :=
  match text with
  | [] => []
  | c :: rest => if is_newline c then [] else c :: first_line rest
  end.

(** The file with all its text in upper case. *)
Definition upper_file (file : text_file) : text_file :=
  match file with
  | Text unread => Text (upper unread)
  | Undecodable => Undecodable
  end.

(** Python types of the values that a count can hold, [type(x)], and the
    values of the dictionary that [check_ortho] returns. *)
Inductive pytype : Type :=
| Tint
| Tfloat.

Definition type_of (x : num) : pytype :=
  match x with Int _ => Tint | NaN => Tfloat end.

Inductive value : Type :=
| Number (x : num)
| Sequence (l : list Z).

(** [output.items()]: the keys of the dictionary literal of [check_ortho]
    with their values, in order. *)
Definition items (output : Output) : list (string * value) :=
  [("count"%string, Number (Int (count output)));
   ("count_revcompl"%string, Number (count_revcompl output));
   ("count_corrected"%string, Number (Int (count_corrected output)));
   ("count_revcompl_corrected"%string,
    Number (count_revcompl_corrected output));
   ("n_count"%string, Sequence (n_count output));
   ("n_count_revcompl"%string, Sequence (n_count_revcompl output))].

(** [output.get(key)] *)
Definition get (output : Output) (key : string) : option value :=
  match find (fun kv => String.eqb (fst kv) key) (items output) with
  | Some kv => Some (snd kv)
  | None => None
  end.

(** The Watson-Crick partner of a base, and the reverse complement of a
    segment as the glossary defines it: reverse the order and substitute
    each symbol by its partner.  Only used to compare with [complement]. *)
Definition partner (base : ascii) : ascii :=
  match REVERSE base with Some b => b | None => base end.

Definition reverse_complement_spec (segment : str) : str :=
  rev (map partner segment).

(** Number of indices of [js] at which [f] holds. *)
Definition hits (f : Z -> bool) (js : list Z) : Z := len (filter f js).

(** The counters that exceed 1, in order. *)
Definition keep_repeats (l : list Z) : list Z :=
  filter (fun c => 1 <? c) l.

(** The two tests of one inner iteration, for a window [sc1_seg] of the
    first sequence and the extended second sequence [sc2f]. *)
Definition exact_here (project : Project) (sc1_seg sc2f : str) (j : Z)
  : bool :=
  is_match sc1_seg (slice sc2f j (j + n project)) project.

Definition rc_here (project : Project) (sc1_seg sc2f : str) (j : Z) : bool :=
  is_match sc1_seg (slice_rev sc2f (j + n project) j) project.

Definition rc_hits (project : Project) (sc1_seg sc2f : str) (js : list Z)
  : Z :=
  if get_rev_compl project then hits (rc_here project sc1_seg sc2f) js
  else 0.

(** What one outer iteration counts, for extended sequences [sc1f] and
    [sc2f] and [len_sc2] starting positions in the second one. *)
Definition exact_row (project : Project) (sc1f sc2f : str) (len_sc2 : nat)
  (i : Z) : Z :=
  hits (exact_here project (slice sc1f i (i + n project)) sc2f)
       (range len_sc2).

Definition rc_row (project : Project) (sc1f sc2f : str) (len_sc2 : nat)
  (i : Z) : Z :=
  rc_hits project (slice sc1f i (i + n project)) sc2f (range len_sc2).

Section Counters.

Variable project : Project.
Variables sc1 sc2 : str.

Definition sc1_full : str := fst (circularise_sc project sc1 sc2).
Definition sc2_full : str := snd (circularise_sc project sc1 sc2).

(** The window of [sc1] at [i], the window of [sc2] at [j], and the
    reversed window of [sc2] that the reverse-complement test reads. *)
Definition window1 (i : Z) : str := slice sc1_full i (i + n project).
Definition window2 (j : Z) : str := slice sc2_full j (j + n project).
Definition window2_rev (j : Z) : str :=
  slice_rev sc2_full (j + n project) j.

(** Per-position match counters of the starting position [i] of [sc1]
    against all starting positions of [sc2]. *)
Definition exact_matches (i : Z) : Z :=
  hits (fun j => is_match (window1 i) (window2 j) project)
       (range (length sc2)).

Definition rc_matches (i : Z) : Z :=
  if get_rev_compl project
  then hits (fun j => is_match (window1 i) (window2_rev j) project)
            (range (length sc2))
  else 0.

(** The repeat-multiplicity sequences: the counters that exceed 1, in
    the order of the starting positions. *)
Definition repeats (counter : Z -> Z) : list Z :=
  filter (fun c => 1 <? c) (map counter (range (length sc1))).

Definition total (counter : Z -> Z) : Z :=
  sum (map counter (range (length sc1))).

End Counters.

(** The first character of a segment that is no key of [REVERSE]. *)
Definition first_bad (segment : str) : option ascii :=
  find (fun c => negb (mem c (py "ATGC"))) segment.

(** The exceptions that a failed lookup in [REVERSE] raises. *)
Definition bad_key (e : exn) : Prop :=
  exists c : ascii, e = KeyError c /\ mem c (py "ATGC") = false.

(** The extended form of one sequence. *)
Definition extended (project : Project) (s : str) : str :=
  if is_linear project then s else s ++ slice_to s (n project).

(** Number of starting positions of [sc1] whose counter is at least 1. *)
Definition positions_matched (sc1 : str) (counter : Z -> Z) : Z :=
  len (filter (fun c => 1 <=? c) (map counter (range (length sc1)))).

(** The result in which nothing was counted. *)
Definition zero_output (project : Project) : Output :=
  mkOutput 0 (if get_rev_compl project then Int 0 else NaN)
           0 (if get_rev_compl project then Int 0 else NaN) [] [].

(** ** Basic facts *)

Lemma str_eqb_eq (s t : str) : str_eqb s t = true <-> s = t.
Proof.
  revert t; induction s as [|c s IH]; intros [|d t]; simpl;
    try (split; congruence).
  rewrite andb_true_iff, Ascii.eqb_eq, IH.
  split; [intros [-> ->]; reflexivity | intros E; inversion E; auto].
Qed.

Lemma is_match_true (seg1 seg2 : str) (p : Project) :
  is_match seg1 seg2 p = true <-> seg1 = seg2 /\ len seg1 = n p.
Proof.
  unfold is_match. rewrite andb_true_iff, str_eqb_eq, Z.eqb_eq. tauto.
Qed.

Lemma is_match_short (seg1 seg2 : str) (p : Project) :
  len seg1 <> n p \/ len seg2 <> n p -> is_match seg1 seg2 p = false.
Proof.
  intros H. destruct (is_match seg1 seg2 p) eqn:E; [|reflexivity].
  apply is_match_true in E. destruct E as [-> E]. tauto.
Qed.

Lemma num_add_0 (x : num) : num_add x 0 = x.
Proof. destruct x; simpl; [rewrite Z.add_0_r|]; reflexivity. Qed.

Lemma num_add_add (x : num) (a b : Z) :
  num_add (num_add x a) b = num_add x (a + b).
Proof. destruct x; simpl; [rewrite Z.add_assoc|]; reflexivity. Qed.

Lemma hits_cons (f : Z -> bool) (j : Z) (js : list Z) :
  hits f (j :: js) = (if f j then 1 else 0) + hits f js.
Proof.
  unfold hits, len; simpl. destruct (f j); simpl length; lia.
Qed.

Lemma hits_none (f : Z -> bool) (js : list Z) :
  (forall j, In j js -> f j = false) -> hits f js = 0.
Proof.
  induction js as [|j js IH]; intros H; [reflexivity|].
  rewrite hits_cons, H by (simpl; auto).
  rewrite IH; [reflexivity|]. intros k Hk. apply H. simpl; auto.
Qed.

(** ** Slices *)

Lemma slice_to_firstn (s : str) (k : Z) :
  0 <= k -> slice_to s k = firstn (Z.to_nat k) s.
Proof.
  intros Hk. unfold slice_to, slice, adjust_fwd.
  assert (H0 : len s >= 0) by (unfold len; lia).
  replace (0 <? 0) with false by reflexivity.
  replace (k <? 0) with false by (symmetry; apply Z.ltb_ge; exact Hk).
  rewrite (Z.min_l 0) by lia. rewrite Z.sub_0_r. simpl skipn.
  destruct (Z.le_gt_cases k (len s)) as [H|H].
  - rewrite Z.min_l by lia. reflexivity.
  - rewrite Z.min_r by lia. unfold len in *. rewrite Nat2Z.id.
    rewrite !firstn_all2 by lia. reflexivity.
Qed.

Lemma slice_len_le (s : str) (a b : Z) : len (slice s a b) <= len s.
Proof.
  unfold slice, len. rewrite length_firstn, length_skipn. lia.
Qed.

Lemma slice_rev_len_le (s : str) (a b : Z) : len (slice_rev s a b) <= len s.
Proof.
  unfold slice_rev, len. rewrite length_rev, length_firstn, length_skipn. lia.
Qed.

(** ** Validated sequences *)

Lemma validated_Forall (s : str) : validated s <-> Forall base_ok s.
Proof.
  unfold validated, issubset. rewrite forallb_forall, Forall_forall. tauto.
Qed.

Lemma Forall_firstn_skipn {A : Type} (P : A -> Prop) (k : nat) (l : list A) :
  Forall P l -> Forall P (firstn k l) /\ Forall P (skipn k l).
Proof.
  intros H. rewrite <- (firstn_skipn k l) in H.
  apply Forall_app in H. exact H.
Qed.

Lemma validated_slice (s : str) (a b : Z) :
  validated s -> validated (slice s a b).
Proof.
  rewrite !validated_Forall. intros H. unfold slice.
  apply Forall_firstn_skipn, Forall_firstn_skipn, H.
Qed.

Lemma validated_slice_rev (s : str) (a b : Z) :
  validated s -> validated (slice_rev s a b).
Proof.
  rewrite !validated_Forall. intros H. unfold slice_rev.
  apply Forall_rev, Forall_firstn_skipn, Forall_firstn_skipn, H.
Qed.

Lemma validated_app (s t : str) :
  validated s -> validated t -> validated (s ++ t).
Proof.
  rewrite !validated_Forall. intros; apply Forall_app; auto.
Qed.

Lemma validated_full (p : Project) (sc1 sc2 : str) :
  validated sc2 -> validated (sc2_full p sc1 sc2).
Proof.
  intros H. unfold sc2_full, circularise_sc.
  destruct (is_linear p); simpl; [exact H|].
  apply validated_app; [exact H | apply validated_slice, H].
Qed.

Lemma REVERSE_base_ok (c : ascii) : base_ok c -> REVERSE c <> None.
Proof.
  unfold base_ok, mem, REVERSE; simpl.
  destruct (Ascii.eqb c "A"), (Ascii.eqb c "T"), (Ascii.eqb c "G"),
    (Ascii.eqb c "C"); simpl; congruence.
Qed.

Lemma complement_loop_validated (segment : str) :
  validated segment -> complement_loop segment = Ok tt.
Proof.
  rewrite validated_Forall.
  induction 1 as [|c s Hc Hs IH]; [reflexivity|].
  simpl. destruct (REVERSE c) eqn:E.
  - exact IH.
  - exfalso. exact (REVERSE_base_ok c Hc E).
Qed.

(** On a validated segment every lookup succeeds and the segment comes
    back as it went in. *)
Lemma complement_validated (segment : str) :
  validated segment -> complement segment = Ok segment.
Proof.
  intros H. unfold complement.
  rewrite (complement_loop_validated segment H). reflexivity.
Qed.

(** ** The loops of [check_ortho] *)

Section InnerLoop.

Variable project : Project.
Variables sc1_seg sc2f : str.
Hypothesis sc2f_ok : get_rev_compl project = true -> validated sc2f.

Local Abbreviation ex := (exact_here project sc1_seg sc2f).
Local Abbreviation rc := (rc_here project sc1_seg sc2f).
Local Abbreviation rcs := (rc_hits project sc1_seg sc2f).

Lemma rc_hits_cons (j : Z) (js : list Z) :
  rcs (j :: js)
  = (if get_rev_compl project && rc j then 1 else 0) + rcs js.
Proof.
  unfold rc_hits. destruct (get_rev_compl project); simpl andb.
  - apply hits_cons.
  - reflexivity.
Qed.

(** One iteration adds the two indicators of the position [j]. *)
Lemma inner_body_step (j : Z) (v : Vars.t) :
  inner_body project sc1_seg sc2f j v
  = Ok (Vars.mk
          (Vars.count v + (if ex j then 1 else 0))
          (num_add (Vars.count_RC v)
             (if get_rev_compl project && rc j then 1 else 0))
          (Vars.n_count v) (Vars.n_count_RC v)
          (Vars.repeat_count v + (if ex j then 1 else 0))
          (Vars.repeat_count_RC v
           + (if get_rev_compl project && rc j then 1 else 0))).
Proof.
  unfold inner_body. fold (ex j).
  destruct (get_rev_compl project) eqn:Hrc; simpl andb.
  - rewrite complement_validated
      by (apply validated_slice_rev, sc2f_ok; reflexivity).
    simpl bind. fold (rc j).
    destruct v as [c cr nc ncr r rr].
    destruct (ex j), (rc j); simpl;
      rewrite ?Z.add_0_r, ?num_add_0; reflexivity.
  - destruct v as [c cr nc ncr r rr].
    destruct (ex j); simpl;
      rewrite ?Z.add_0_r, ?num_add_0; reflexivity.
Qed.

(** The whole inner loop adds the number of matching positions. *)
Lemma inner_loop (js : list Z) : forall v : Vars.t,
  for_each js (inner_body project sc1_seg sc2f) v
  = Ok (Vars.mk
          (Vars.count v + hits ex js)
          (num_add (Vars.count_RC v) (rcs js))
          (Vars.n_count v) (Vars.n_count_RC v)
          (Vars.repeat_count v + hits ex js)
          (Vars.repeat_count_RC v + rcs js)).
Proof.
  induction js as [|j js IH]; intros v.
  - destruct v as [c cr nc ncr r rr]. simpl.
    unfold rc_hits, hits; simpl. destruct (get_rev_compl project);
      unfold len; simpl; rewrite !Z.add_0_r, num_add_0; reflexivity.
  - simpl for_each. rewrite inner_body_step. simpl bind. rewrite IH.
    simpl. rewrite hits_cons, rc_hits_cons, num_add_add.
    f_equal. f_equal; lia.
Qed.

End InnerLoop.

Section OuterLoop.

Variable project : Project.
Variables sc1f sc2f : str.
Variable len_sc2 : nat.
Hypothesis sc2f_ok : get_rev_compl project = true -> validated sc2f.

Local Abbreviation erow := (exact_row project sc1f sc2f len_sc2).
Local Abbreviation rrow := (rc_row project sc1f sc2f len_sc2).

Lemma outer_body_step (i : Z) (v : Vars.t) :
  outer_body project sc1f sc2f len_sc2 i v
  = Ok (Vars.mk
          (Vars.count v + erow i)
          (num_add (Vars.count_RC v) (rrow i))
          (Vars.n_count v ++ keep_repeats [erow i])
          (Vars.n_count_RC v ++ keep_repeats [rrow i])
          (erow i) (rrow i)).
Proof.
  unfold outer_body. rewrite (inner_loop project _ sc2f sc2f_ok).
  simpl. fold (erow i). fold (rrow i).
  destruct (1 <? erow i); simpl;
    destruct (1 <? rrow i); simpl;
    rewrite ?app_nil_r; reflexivity.
Qed.

Lemma outer_loop (positions : list Z) : forall v : Vars.t,
  exists v' : Vars.t,
    for_each positions (outer_body project sc1f sc2f len_sc2) v = Ok v'
    /\ Vars.count v' = Vars.count v + sum (map erow positions)
    /\ Vars.count_RC v'
       = num_add (Vars.count_RC v) (sum (map rrow positions))
    /\ Vars.n_count v'
       = Vars.n_count v ++ keep_repeats (map erow positions)
    /\ Vars.n_count_RC v'
       = Vars.n_count_RC v ++ keep_repeats (map rrow positions).
Proof.
  induction positions as [|i positions IH]; intros v.
  - exists v. simpl. rewrite Z.add_0_r, num_add_0, !app_nil_r. auto.
  - simpl for_each. rewrite outer_body_step. simpl bind.
    destruct (IH (Vars.mk
          (Vars.count v + erow i)
          (num_add (Vars.count_RC v) (rrow i))
          (Vars.n_count v ++ keep_repeats [erow i])
          (Vars.n_count_RC v ++ keep_repeats [rrow i])
          (erow i) (rrow i)))
      as (v' & Hrun & Hc & Hcr & Hn & Hnr).
    simpl in Hc, Hcr, Hn, Hnr.
    exists v'. split; [exact Hrun|].
    rewrite Hc, Hcr, Hn, Hnr, num_add_add, <- !app_assoc.
    simpl map. unfold keep_repeats; simpl.
    repeat split; try lia;
      [destruct (1 <? erow i) | destruct (1 <? rrow i)];
      reflexivity.
Qed.

End OuterLoop.

(** ** The result of [check_ortho] in terms of the counters *)

Lemma check_ortho_run (p : Project) (sc1 sc2 : str) :
  (get_rev_compl p = true -> validated sc2) ->
  exists r : Output,
    check_ortho sc1 sc2 p = Ok r
    /\ count r = total sc1 (exact_matches p sc1 sc2)
    /\ count_revcompl r
       = (if get_rev_compl p
          then Int (total sc1 (rc_matches p sc1 sc2)) else NaN)
    /\ n_count r = repeats sc1 (exact_matches p sc1 sc2)
    /\ n_count_revcompl r = repeats sc1 (rc_matches p sc1 sc2)
    /\ count_corrected r = count r - (sum (n_count r) - len (n_count r))
    /\ count_revcompl_corrected r
       = num_sub (count_revcompl r)
           (sum (n_count_revcompl r) - len (n_count_revcompl r)).
Proof.
  intros Hok. unfold check_ortho.
  rewrite (surjective_pairing (circularise_sc p sc1 sc2)).
  fold (sc1_full p sc1 sc2) (sc2_full p sc1 sc2).
  assert (Hfull : get_rev_compl p = true -> validated (sc2_full p sc1 sc2))
    by (intros H; apply validated_full, Hok, H).
  destruct (outer_loop p (sc1_full p sc1 sc2) (sc2_full p sc1 sc2)
              (length sc2) Hfull (range (length sc1))
              (Vars.mk 0 (if get_rev_compl p then Int 0 else nan) [] [] 0 0))
    as (v & Hrun & Hc & Hcr & Hn & Hnr).
  rewrite Hrun. simpl bind. eexists. split; [reflexivity|].
  simpl in *. rewrite Hc, Hcr, Hn, Hnr.
  repeat split.
  destruct (get_rev_compl p); reflexivity.
Qed.

(** Entries of a repeat-multiplicity sequence exceed 1, so the correction
    never adds and removes something as soon as there is an entry. *)
Lemma excess_nonneg (l : list Z) :
  Forall (fun c => 1 < c) l ->
  0 <= sum l - len l /\ (sum l - len l = 0 <-> l = []).
Proof.
  induction 1 as [|c l Hc Hl [IH1 IH2]].
  - split; [reflexivity | split; reflexivity].
  - unfold sum, len in *. simpl fold_right. simpl length.
    rewrite Nat2Z.inj_succ. split; [lia|]. split; [lia | discriminate].
Qed.

Lemma repeats_gt_1 (sc1 : str) (counter : Z -> Z) :
  Forall (fun c => 1 < c) (repeats sc1 counter).
Proof.
  apply Forall_forall. intros c Hc. unfold repeats in Hc.
  apply filter_In in Hc. destruct Hc as [_ Hc]. apply Z.ltb_lt, Hc.
Qed.

Lemma total_zero (sc1 : str) (counter : Z -> Z) :
  (forall i, counter i = 0) ->
  total sc1 counter = 0 /\ repeats sc1 counter = [].
Proof.
  intros H. unfold total, repeats.
  induction (range (length sc1)) as [|i l [IH1 IH2]]; [split; reflexivity|].
  simpl map. rewrite H.
  change (sum (0 :: map counter l)) with (0 + sum (map counter l)).
  change (filter (fun c => 1 <? c) (0 :: map counter l))
    with (filter (fun c => 1 <? c) (map counter l)).
  rewrite IH1, IH2. split; reflexivity.
Qed.

(** ** The first line of a file *)

Lemma upper_char_LF (c : ascii) :
  Ascii.eqb (upper_char c) LF = Ascii.eqb c LF.
Proof.
  destruct c as [b0 b1 b2 b3 b4 b5 b6 b7].
  destruct b0, b1, b2, b3, b4, b5, b6, b7; reflexivity.
Qed.

Lemma upper_char_newline (c : ascii) :
  is_newline (upper_char c) = is_newline c.
Proof.
  destruct c as [b0 b1 b2 b3 b4 b5 b6 b7].
  destruct b0, b1, b2, b3, b4, b5, b6, b7; reflexivity.
Qed.

Lemma one_line_no_LF (s : str) : one_line s -> no_LF s.
Proof.
  apply Forall_impl. intros c Hc. unfold is_newline in Hc.
  apply orb_false_iff in Hc. tauto.
Qed.

Lemma first_line_one_line (text : str) : one_line (first_line text).
Proof.
  induction text as [|c rest IH]; simpl; [constructor|].
  destruct (is_newline c) eqn:E; constructor; assumption.
Qed.

Lemma upper_one_line (s : str) : one_line s -> one_line (upper s).
Proof.
  induction 1 as [|c s Hc Hs IH]; simpl; constructor;
    [rewrite upper_char_newline; exact Hc | exact IH].
Qed.

Lemma first_line_no_LF (text : str) : no_LF (upper (first_line text)).
Proof.
  apply one_line_no_LF, upper_one_line, first_line_one_line.
Qed.

Lemma readline_first_line (text : str) :
  fst (readline text) = first_line text
  \/ fst (readline text) = first_line text ++ [LF].
Proof.
  induction text as [|c rest IH]; simpl; [left; reflexivity|].
  unfold is_newline. destruct (Ascii.eqb c LF) eqn:E; simpl orb.
  - right. reflexivity.
  - destruct (Ascii.eqb c CR) eqn:E'.
    + right. reflexivity.
    + destruct (readline rest) as [line rest']. simpl in *.
      destruct IH as [-> | ->]; [left | right]; reflexivity.
Qed.

Lemma lstrip_no_LF (s : str) : no_LF s -> lstrip [LF] s = s.
Proof.
  intros H. destruct H as [|c s Hc Hs]; [reflexivity|].
  simpl. rewrite Hc. reflexivity.
Qed.

Lemma strip_no_LF (s : str) : no_LF s -> strip [LF] s = s.
Proof.
  intros H. unfold strip. rewrite (lstrip_no_LF s H).
  rewrite lstrip_no_LF by (apply Forall_rev, H). apply rev_involutive.
Qed.

Lemma strip_trailing_LF (s : str) : no_LF s -> strip [LF] (s ++ [LF]) = s.
Proof.
  intros H. unfold strip.
  assert (E : lstrip [LF] (s ++ [LF]) = s ++ [LF] \/ s = []).
  { destruct H as [|c s Hc Hs]; [right; reflexivity|].
    left. simpl. rewrite Hc. reflexivity. }
  destruct E as [-> | ->].
  - rewrite rev_app_distr. simpl.
    rewrite lstrip_no_LF by (apply Forall_rev, H). apply rev_involutive.
  - reflexivity.
Qed.

(** What [proc_infile] checks: the first line, without its line feed,
    in upper case. *)
Lemma cleaned_first_line (text : str) :
  strip [LF] (upper (fst (readline text))) = upper (first_line text).
Proof.
  destruct (readline_first_line text) as [-> | ->].
  - apply strip_no_LF, first_line_no_LF.
  - unfold upper. rewrite map_app. apply strip_trailing_LF, first_line_no_LF.
Qed.

(** [proc_infile] on a file that decodes, as a function of its first
    line. *)
Lemma proc_infile_first (text : str) :
  proc_infile (Text text)
  = (if issubset (upper (first_line text)) (py "ATGC")
     then ([], Ok (upper (first_line text)))
     else (["faulty sequence"%string], Raise (SystemExit 0))).
Proof.
  unfold proc_infile, file_readline.
  pose proof (cleaned_first_line text) as C.
  destruct (readline text) as [line rest]. simpl in C. rewrite C.
  destruct (issubset (upper (first_line text)) (py "ATGC")); reflexivity.
Qed.


(** ** Segments longer than a linear sequence *)

Lemma linear_sc2_full (p : Project) (sc1 sc2 : str) :
  is_linear p = true -> sc2_full p sc1 sc2 = sc2.
Proof.
  intros H. unfold sc2_full, circularise_sc. rewrite H. reflexivity.
Qed.

Lemma long_segment_no_match (p : Project) (sc1 sc2 : str) (i : Z) :
  is_linear p = true -> n p > len sc2 ->
  exact_matches p sc1 sc2 i = 0 /\ rc_matches p sc1 sc2 i = 0.
Proof.
  intros Hlin Hn. unfold exact_matches, rc_matches, window2, window2_rev.
  rewrite (linear_sc2_full p sc1 sc2 Hlin). split.
  - apply hits_none. intros j _. apply is_match_short. right.
    pose proof (slice_len_le sc2 j (j + n p)). lia.
  - destruct (get_rev_compl p); [|reflexivity].
    apply hits_none. intros j _. apply is_match_short. right.
    pose proof (slice_rev_len_le sc2 (j + n p) j). lia.
Qed.

(** ** Properties of the script *)

(** C1. The claim asks [complement] to return the reverse complement, so
    that the segment ATGC is mapped to GCAT.  The function returns its
    argument: at ATGC the result is ATGC, while the reverse complement of
    the glossary is GCAT. *)
Theorem complement_returns_its_argument :
  complement (py "ATGC") = Ok (py "ATGC")
  /\ reverse_complement_spec (py "ATGC") = py "GCAT"
  /\ complement (py "ATGC") <> Ok (reverse_complement_spec (py "ATGC")).
Proof.
  vm_compute. split; [reflexivity|]. split; [reflexivity|]. discriminate.
Qed.

(** C2. For sc1 = AAAA, sc2 = TTTT, segment length 2, linear topology and
    reverse-complement mode enabled, the claim expects a raw
    reverse-complement count above 0.  The call returns 0 for the raw
    exact count and 0 for the raw reverse-complement count as well. *)
Theorem check_ortho_AAAA_TTTT (folder sc1_path sc2_path : string) :
  check_ortho (py "AAAA") (py "TTTT")
    (mkProject folder sc1_path sc2_path 2 true true)
  = Ok (mkOutput 0 (Int 0) 0 (Int 0) [] []).
Proof. vm_compute. reflexivity. Qed.

(** C3. For validated sequences and any configuration, the corrected
    count is the raw count minus (sum(R) - length(R)), where the
    repeat-multiplicity sequence R lists, in order of the starting
    positions of sc1, exactly the per-position match counters that exceed
    1; the raw count is the sum of all counters.  The same holds for the
    reverse-complement counts when that mode is enabled. *)
Theorem repeat_correction (p : Project) (sc1 sc2 : str) :
  validated sc1 -> validated sc2 ->
  exists r : Output,
    check_ortho sc1 sc2 p = Ok r
    /\ count r = total sc1 (exact_matches p sc1 sc2)
    /\ n_count r
       = filter (fun c => 1 <? c)
           (map (exact_matches p sc1 sc2) (range (length sc1)))
    /\ count_corrected r = count r - (sum (n_count r) - len (n_count r))
    /\ (get_rev_compl p = true ->
        exists c : Z,
          count_revcompl r = Int c
          /\ c = total sc1 (rc_matches p sc1 sc2)
          /\ n_count_revcompl r
             = filter (fun c => 1 <? c)
                 (map (rc_matches p sc1 sc2) (range (length sc1)))
          /\ count_revcompl_corrected r
             = Int (c - (sum (n_count_revcompl r)
                         - len (n_count_revcompl r)))).
Proof.
  intros _ H2.
  destruct (check_ortho_run p sc1 sc2 (fun _ => H2))
    as (r & Hr & Hc & Hcr & Hn & Hnr & Hcc & Hcrc).
  exists r. repeat split; try assumption.
  intros Hrc. rewrite Hrc in Hcr.
  exists (total sc1 (rc_matches p sc1 sc2)).
  repeat split; try assumption.
  rewrite Hcrc, Hcr. reflexivity.
Qed.

(** C4. For a segment length of at least 1, [circularise_sc] returns each
    sequence followed by its first n characters in circular mode and the
    sequences unchanged in linear mode; the first len(s) characters of an
    extended sequence are the sequence s. *)
Theorem circularise_sc_spec (p : Project) (sc1 sc2 : str) :
  1 <= n p ->
  circularise_sc p sc1 sc2
  = (if is_linear p then (sc1, sc2)
     else (sc1 ++ firstn (Z.to_nat (n p)) sc1,
           sc2 ++ firstn (Z.to_nat (n p)) sc2))
  /\ slice_to (fst (circularise_sc p sc1 sc2)) (len sc1) = sc1
  /\ slice_to (snd (circularise_sc p sc1 sc2)) (len sc2) = sc2.
Proof.
  intros Hn. unfold circularise_sc.
  rewrite (slice_to_firstn sc1 (n p)), (slice_to_firstn sc2 (n p)) by lia.
  assert (Hpre : forall s t : str, slice_to (s ++ t) (len s) = s).
  { intros s t. rewrite slice_to_firstn by (unfold len; lia).
    unfold len. rewrite Nat2Z.id, firstn_app, Nat.sub_diag, firstn_all.
    simpl. apply app_nil_r. }
  assert (Hself : forall s : str, slice_to s (len s) = s).
  { intros s. rewrite <- (app_nil_r s) at 1. apply Hpre. }
  destruct (is_linear p); simpl; repeat split;
    solve [apply Hpre | apply Hself].
Qed.

(** C5. For validated sequences and any configuration, the corrected
    exact count is at most the raw exact count, and the two are equal
    exactly when the exact repeat-multiplicity sequence is empty. *)
Theorem corrected_le_raw (p : Project) (sc1 sc2 : str) :
  validated sc1 -> validated sc2 ->
  exists r : Output,
    check_ortho sc1 sc2 p = Ok r
    /\ count_corrected r <= count r
    /\ (count_corrected r = count r <-> n_count r = []).
Proof.
  intros _ H2.
  destruct (check_ortho_run p sc1 sc2 (fun _ => H2))
    as (r & Hr & _ & _ & Hn & _ & Hcc & _).
  exists r. split; [exact Hr|].
  destruct (excess_nonneg (n_count r)) as [Hge Hiff].
  { rewrite Hn. apply repeats_gt_1. }
  rewrite Hcc. split; [lia|].
  rewrite <- Hiff. lia.
Qed.

(** C6. For sc1 = sc2 = ATGCATGC, segment length 4, circular topology and
    reverse-complement mode disabled, the raw exact count exceeds 8 (it is
    16) and the corrected exact count is 8. *)
Theorem check_ortho_ATGCATGC (folder sc1_path sc2_path : string) :
  exists r : Output,
    check_ortho (py "ATGCATGC") (py "ATGCATGC")
      (mkProject folder sc1_path sc2_path 4 false false) = Ok r
    /\ count r = 16 /\ count r > 8 /\ count_corrected r = 8.
Proof.
  exists (mkOutput 16 NaN 8 NaN [2; 2; 2; 2; 2; 2; 2; 2] []).
  split; [vm_compute; reflexivity|]. simpl. repeat split.
Qed.

(** C7, the claim as stated fails.  With sc1 = ATGC, sc2 = AT and segment
    length 3 (longer than sc2), in linear topology, the call does not fail:
    it returns a result record with all counts 0. *)
Lemma long_segment_returns_record :
  n (mkProject "./" "sc1.txt" "sc2.txt" 3 true false) > len (py "AT")
  /\ validated (py "ATGC") /\ validated (py "AT")
  /\ check_ortho (py "ATGC") (py "AT")
       (mkProject "./" "sc1.txt" "sc2.txt" 3 true false)
     = Ok (mkOutput 0 NaN 0 NaN [] [])
  /\ ~ (exists e : exn,
          check_ortho (py "ATGC") (py "AT")
            (mkProject "./" "sc1.txt" "sc2.txt" 3 true false) = Raise e).
Proof.
  vm_compute. repeat split; try reflexivity.
  intros [e He]. discriminate He.
Qed.

(** C7, amended.  For validated sequences and a segment length that
    exceeds the length of sc2, [check_ortho] makes no check of the segment
    length: it raises nothing and returns a result record.  In linear
    topology that record has raw and corrected exact counts 0, no
    repeat-multiplicity entries, and a raw reverse-complement count that
    is 0 when the mode is enabled. *)
Theorem long_segment_no_failure (p : Project) (sc1 sc2 : str) :
  validated sc1 -> validated sc2 -> n p > len sc2 ->
  exists r : Output,
    check_ortho sc1 sc2 p = Ok r
    /\ (is_linear p = true ->
        count r = 0 /\ count_corrected r = 0
        /\ n_count r = [] /\ n_count_revcompl r = []
        /\ count_revcompl r = (if get_rev_compl p then Int 0 else NaN)).
Proof.
  intros _ H2 Hn.
  destruct (check_ortho_run p sc1 sc2 (fun _ => H2))
    as (r & Hr & Hc & Hcr & Hnc & Hnr & Hcc & _).
  exists r. split; [exact Hr|]. intros Hlin.
  destruct (total_zero sc1 (exact_matches p sc1 sc2)) as [Ht Hrep].
  { intros i. apply (long_segment_no_match p sc1 sc2 i Hlin Hn). }
  destruct (total_zero sc1 (rc_matches p sc1 sc2)) as [Htr Hrepr].
  { intros i. apply (long_segment_no_match p sc1 sc2 i Hlin Hn). }
  rewrite Hcc, Hcr, Hnc, Hnr, Hc, Ht, Htr, Hrep, Hrepr.
  repeat split.
Qed.



(** C9, the claim as stated fails.  For sc1 = sc2 = ATGC, segment length
    2, circular topology and reverse-complement mode disabled, the keys
    of the two reverse-complement counts are present in the result and
    both hold [nan], a value of type float: a numeric sentinel, not an
    absent state. *)
Lemma rev_compl_disabled_stores_float :
  exists r : Output,
    check_ortho (py "ATGC") (py "ATGC")
      (mkProject "./" "sc1.txt" "sc2.txt" 2 false false) = Ok r
    /\ get r "count_revcompl" = Some (Number nan)
    /\ get r "count_revcompl_corrected" = Some (Number nan)
    /\ get r "count_revcompl" <> None
    /\ get r "count_revcompl_corrected" <> None
    /\ type_of nan = Tfloat.
Proof.
  exists (mkOutput 4 NaN 4 NaN [] []).
  split; [vm_compute; reflexivity|].
  repeat split; discriminate.
Qed.

(** C9, amended.  For validated sequences and reverse-complement mode
    disabled, the result still carries the keys of the raw and of the
    corrected reverse-complement count, and both hold the float [nan]: a
    not-a-number sentinel of a numeric type, never 0 or another integer.
    The reverse-complement repeat-multiplicity sequence is the empty
    list. *)
Theorem rev_compl_disabled_not_computed (p : Project) (sc1 sc2 : str) :
  validated sc1 -> validated sc2 -> get_rev_compl p = false ->
  exists r : Output,
    check_ortho sc1 sc2 p = Ok r
    /\ count_revcompl r = nan
    /\ count_revcompl_corrected r = nan
    /\ (forall z : Z,
          count_revcompl r <> Int z /\ count_revcompl_corrected r <> Int z)
    /\ n_count_revcompl r = []
    /\ get r "count_revcompl" = Some (Number nan)
    /\ get r "count_revcompl_corrected" = Some (Number nan)
    /\ get r "n_count_revcompl" = Some (Sequence [])
    /\ type_of (count_revcompl r) = Tfloat
    /\ type_of (count_revcompl_corrected r) = Tfloat.
Proof.
  intros _ H2 Hrc.
  destruct (check_ortho_run p sc1 sc2 (fun _ => H2))
    as (r & Hr & _ & Hcr & _ & Hnr & _ & Hcrc).
  exists r. split; [exact Hr|].
  rewrite Hrc in Hcr. rewrite Hcr in Hcrc. simpl in Hcrc.
  destruct (total_zero sc1 (rc_matches p sc1 sc2)) as [_ Hrep].
  { intros i. unfold rc_matches. rewrite Hrc. reflexivity. }
  rewrite Hrep in Hnr.
  unfold get, items. simpl find. simpl snd.
  rewrite Hcr, Hcrc, Hnr.
  repeat split; discriminate.
Qed.

(** C10. For non-empty validated sequences and a segment length of at
    least 1, whatever its size, [check_ortho] raises nothing and returns a
    result record.  Its raw counts are the numbers of pairs of positions
    accepted by [is_match], and [is_match] rejects every pair in which a
    window is shorter than the segment length. *)
Theorem check_ortho_total (p : Project) (sc1 sc2 : str) :
  validated sc1 -> validated sc2 -> sc1 <> [] -> sc2 <> [] -> 1 <= n p ->
  exists r : Output,
    check_ortho sc1 sc2 p = Ok r
    /\ count r = total sc1 (exact_matches p sc1 sc2)
    /\ count_revcompl r
       = (if get_rev_compl p
          then Int (total sc1 (rc_matches p sc1 sc2)) else NaN)
    /\ forall i j : Z,
         (len (window1 p sc1 sc2 i) < n p \/ len (window2 p sc1 sc2 j) < n p ->
          is_match (window1 p sc1 sc2 i) (window2 p sc1 sc2 j) p = false)
         /\ (len (window1 p sc1 sc2 i) < n p
             \/ len (window2_rev p sc1 sc2 j) < n p ->
             is_match (window1 p sc1 sc2 i) (window2_rev p sc1 sc2 j) p
             = false).
Proof.
  intros _ H2 _ _ _.
  destruct (check_ortho_run p sc1 sc2 (fun _ => H2))
    as (r & Hr & Hc & Hcr & _).
  exists r. repeat split; try assumption;
    intros H; apply is_match_short; lia.
Qed.

(** ** The properties at concrete inputs *)

(** C3 at sc1 = ATGCATGC, sc2 = GCATTT, segment length 2, circular,
    reverse-complement mode enabled. *)
Lemma repeat_correction_witness :
  validated (py "ATGCATGC") /\ validated (py "GCATTT")
  /\ exists r : Output,
       check_ortho (py "ATGCATGC") (py "GCATTT")
         (mkProject "./" "sc1.txt" "sc2.txt" 2 false true) = Ok r
       /\ count_corrected r = count r - (sum (n_count r) - len (n_count r))
       /\ exists c : Z,
            count_revcompl r = Int c
            /\ count_revcompl_corrected r
               = Int (c - (sum (n_count_revcompl r)
                           - len (n_count_revcompl r))).
Proof.
  split; [reflexivity|]. split; [reflexivity|].
  destruct (repeat_correction
              (mkProject "./" "sc1.txt" "sc2.txt" 2 false true)
              (py "ATGCATGC") (py "GCATTT") eq_refl eq_refl)
    as (r & Hr & _ & _ & Hcc & Hrc).
  destruct (Hrc eq_refl) as (c & Hc & _ & _ & Hcrc).
  exists r. split; [exact Hr|]. split; [exact Hcc|].
  exists c. split; [exact Hc | exact Hcrc].
Defined.

(** C4 at sc1 = ATGCA, sc2 = GG, segment length 3, circular. *)
Lemma circularise_sc_spec_witness :
  1 <= n (mkProject "./" "sc1.txt" "sc2.txt" 3 false false)
  /\ circularise_sc (mkProject "./" "sc1.txt" "sc2.txt" 3 false false)
       (py "ATGCA") (py "GG")
     = (py "ATGCAATG", py "GGGG").
Proof.
  split; [simpl; lia|].
  destruct (circularise_sc_spec
              (mkProject "./" "sc1.txt" "sc2.txt" 3 false false)
              (py "ATGCA") (py "GG")) as [H _]; [simpl; lia|].
  rewrite H. reflexivity.
Defined.

(** C5 at sc1 = sc2 = ATGCATGC, segment length 4, circular. *)
Lemma corrected_le_raw_witness :
  validated (py "ATGCATGC") /\ validated (py "ATGCATGC")
  /\ exists r : Output,
       check_ortho (py "ATGCATGC") (py "ATGCATGC")
         (mkProject "./" "sc1.txt" "sc2.txt" 4 false false) = Ok r
       /\ count_corrected r <= count r
       /\ (count_corrected r = count r <-> n_count r = []).
Proof.
  split; [reflexivity|]. split; [reflexivity|].
  apply (corrected_le_raw
           (mkProject "./" "sc1.txt" "sc2.txt" 4 false false)
           (py "ATGCATGC") (py "ATGCATGC")); reflexivity.
Defined.

(** C7, amended, at sc1 = ATGC, sc2 = AT, segment length 3, linear,
    reverse-complement mode enabled. *)
Lemma long_segment_no_failure_witness :
  validated (py "ATGC") /\ validated (py "AT")
  /\ n (mkProject "./" "sc1.txt" "sc2.txt" 3 true true) > len (py "AT")
  /\ exists r : Output,
       check_ortho (py "ATGC") (py "AT")
         (mkProject "./" "sc1.txt" "sc2.txt" 3 true true) = Ok r
       /\ count r = 0 /\ count_revcompl r = Int 0.
Proof.
  split; [reflexivity|]. split; [reflexivity|]. split; [reflexivity|].
  destruct (long_segment_no_failure
              (mkProject "./" "sc1.txt" "sc2.txt" 3 true true)
              (py "ATGC") (py "AT") eq_refl eq_refl eq_refl)
    as (r & Hr & Hlin).
  destruct (Hlin eq_refl) as (Hc & _ & _ & _ & Hcr).
  exists r. split; [exact Hr|]. split; [exact Hc | exact Hcr].
Defined.

(** C9, amended, at sc1 = ATGCATGC, sc2 = TTGCAA, segment length 2,
    circular. *)
Lemma rev_compl_disabled_not_computed_witness :
  validated (py "ATGCATGC") /\ validated (py "TTGCAA")
  /\ get_rev_compl (mkProject "./" "sc1.txt" "sc2.txt" 2 false false) = false
  /\ exists r : Output,
       check_ortho (py "ATGCATGC") (py "TTGCAA")
         (mkProject "./" "sc1.txt" "sc2.txt" 2 false false) = Ok r
       /\ count_revcompl r = nan
       /\ count_revcompl_corrected r = nan
       /\ n_count_revcompl r = [].
Proof.
  split; [reflexivity|]. split; [reflexivity|]. split; [reflexivity|].
  destruct (rev_compl_disabled_not_computed
              (mkProject "./" "sc1.txt" "sc2.txt" 2 false false)
              (py "ATGCATGC") (py "TTGCAA") eq_refl eq_refl eq_refl)
    as (r & Hr & H1 & H2 & _ & H3 & _).
  exists r. auto.
Defined.

(** C10 at sc1 = ATG, sc2 = AT and a segment length, 7, above both
    lengths. *)
Lemma check_ortho_total_witness :
  validated (py "ATG") /\ validated (py "AT")
  /\ py "ATG" <> [] /\ py "AT" <> []
  /\ 1 <= n (mkProject "./" "sc1.txt" "sc2.txt" 7 true true)
  /\ exists r : Output,
       check_ortho (py "ATG") (py "AT")
         (mkProject "./" "sc1.txt" "sc2.txt" 7 true true) = Ok r.
Proof.
  split; [reflexivity|]. split; [reflexivity|].
  split; [discriminate|]. split; [discriminate|]. split; [simpl; lia|].
  destruct (check_ortho_total
              (mkProject "./" "sc1.txt" "sc2.txt" 7 true true)
              (py "ATG") (py "AT") eq_refl eq_refl)
    as (r & Hr & _); [discriminate | discriminate | simpl; lia |].
  exists r. exact Hr.
Defined.

(** ** Further properties: reading and checking a sequence *)

Lemma upper_char_idem (c : ascii) : upper_char (upper_char c) = upper_char c.
Proof.
  destruct c as [b0 b1 b2 b3 b4 b5 b6 b7].
  destruct b0, b1, b2, b3, b4, b5, b6, b7; reflexivity.
Qed.

Lemma upper_idem (s : str) : upper (upper s) = upper s.
Proof.
  unfold upper. rewrite map_map. apply map_ext, upper_char_idem.
Qed.

Lemma first_line_upper (text : str) :
  first_line (upper text) = upper (first_line text).
Proof.
  induction text as [|c rest IH]; [reflexivity|].
  simpl. rewrite upper_char_newline. destruct (is_newline c); [reflexivity|].
  simpl. f_equal. exact IH.
Qed.

Lemma first_line_alone (s : str) : one_line s -> first_line s = s.
Proof.
  induction 1 as [|c s Hc Hs IH]; simpl; [reflexivity|].
  rewrite Hc, IH. reflexivity.
Qed.

Lemma first_line_app (s rest : str) (c : ascii) :
  one_line s -> is_newline c = true -> first_line (s ++ c :: rest) = s.
Proof.
  intros H Hc. induction H as [|d s Hd Hs IH]; simpl.
  - rewrite Hc. reflexivity.
  - rewrite Hd, IH. reflexivity.
Qed.

Lemma base_ok_cases (c : ascii) :
  base_ok c -> c = "A"%char \/ c = "T"%char \/ c = "G"%char \/ c = "C"%char.
Proof.
  unfold base_ok, mem; simpl. rewrite !orb_true_iff, !Ascii.eqb_eq.
  intuition discriminate.
Qed.

Lemma validated_upper (s : str) : validated s -> upper s = s.
Proof.
  rewrite validated_Forall. induction 1 as [|c s Hc Hs IH]; [reflexivity|].
  simpl. rewrite IH. f_equal.
  destruct (base_ok_cases c Hc) as [-> | [-> | [-> | ->]]]; reflexivity.
Qed.

Lemma validated_one_line (s : str) : validated s -> one_line s.
Proof.
  rewrite validated_Forall. apply Forall_impl. intros c Hc.
  destruct (base_ok_cases c Hc) as [-> | [-> | [-> | ->]]]; reflexivity.
Qed.

Lemma proc_infile_on_validated (s : str) :
  validated s ->
  proc_infile (Text s) = ([], Ok s)
  /\ forall (c : ascii) (rest : str),
       is_newline c = true -> proc_infile (Text (s ++ c :: rest)) = ([], Ok s).
Proof.
  intros H. pose proof (validated_one_line s H) as L. split.
  - rewrite proc_infile_first, (first_line_alone s L), (validated_upper s H).
    unfold validated in H. rewrite H. reflexivity.
  - intros c rest Hc.
    rewrite proc_infile_first, (first_line_app s rest c L Hc),
      (validated_upper s H).
    unfold validated in H. rewrite H. reflexivity.
Qed.

Lemma proc_infile_ok (file : text_file) (out : list string) (s : str) :
  proc_infile file = (out, Ok s) -> out = [] /\ validated s.
Proof.
  destruct file as [text|]; [|discriminate].
  rewrite proc_infile_first.
  destruct (issubset (upper (first_line text)) (py "ATGC")) eqn:E;
    intros H; inversion H; subst.
  split; [reflexivity | exact E].
Qed.

Lemma proc_infile_raise (file : text_file) (out : list string) (e : exn) :
  proc_infile file = (out, Raise e) ->
  (out = ["faulty sequence"%string] /\ e = SystemExit 0)
  \/ (out = [] /\ e = UnicodeDecodeError /\ file = Undecodable).
Proof.
  destruct file as [text|].
  - rewrite proc_infile_first.
    destruct (issubset (upper (first_line text)) (py "ATGC")) eqn:E;
      intros H; inversion H; subst.
    left. split; reflexivity.
  - intros H. inversion H; subst. right. repeat split.
Qed.

(** X1. A validated sequence is read back as it is, when it is the whole
    text of the file and when it is followed by a line ending (a line
    feed, a carriage return and a line feed, or a carriage return alone)
    and any other text. *)
Theorem proc_infile_roundtrip (s rest : str) :
  validated s ->
  proc_infile (Text s) = ([], Ok s)
  /\ proc_infile (Text (s ++ LF :: rest)) = ([], Ok s)
  /\ proc_infile (Text (s ++ CR :: LF :: rest)) = ([], Ok s)
  /\ proc_infile (Text (s ++ CR :: rest)) = ([], Ok s).
Proof.
  intros H. destruct (proc_infile_on_validated s H) as [H0 H1].
  repeat split; [exact H0 | | |]; apply H1; reflexivity.
Qed.

(** X2. The check does not depend on the case of the letters: a file and
    its upper-case form give the same outcome. *)
Theorem proc_infile_upper (file : text_file) :
  proc_infile (upper_file file) = proc_infile file.
Proof.
  destruct file as [text|]; [|reflexivity]. simpl upper_file.
  rewrite !proc_infile_first, first_line_upper, upper_idem. reflexivity.
Qed.

(** X3. Of the text that a file decodes to, only the first line is read:
    the outcome is that of the first line alone, whatever follows the
    first line ending. *)
Theorem proc_infile_first_line_only (text rest : str) :
  proc_infile (Text (first_line text)) = proc_infile (Text text)
  /\ proc_infile (Text (first_line text ++ LF :: rest))
     = proc_infile (Text text)
  /\ proc_infile (Text (first_line text ++ CR :: rest))
     = proc_infile (Text text).
Proof.
  rewrite !proc_infile_first.
  pose proof (first_line_one_line text) as L.
  rewrite (first_line_alone _ L).
  rewrite !(first_line_app _ rest _ L) by reflexivity.
  repeat split.
Qed.

(** X4. Whatever [proc_infile] returns is a validated sequence, nothing
    was printed on the way, and reading the returned sequence again
    returns it unchanged. *)
Theorem proc_infile_result (file : text_file) (out : list string) (s : str) :
  proc_infile file = (out, Ok s) ->
  out = [] /\ validated s /\ proc_infile (Text s) = ([], Ok s).
Proof.
  intros H. destruct (proc_infile_ok file out s H) as [Hout Hs].
  split; [exact Hout|]. split; [exact Hs|].
  apply (proc_infile_on_validated s Hs).
Qed.

Lemma REVERSE_None (c : ascii) :
  REVERSE c = None <-> mem c (py "ATGC") = false.
Proof.
  unfold mem, REVERSE; simpl.
  destruct (Ascii.eqb c "A"), (Ascii.eqb c "T"), (Ascii.eqb c "G"),
    (Ascii.eqb c "C"); simpl; split; congruence.
Qed.

Lemma complement_by_first_bad (segment : str) :
  complement segment
  = match first_bad segment with
    | None => Ok segment
    | Some c => Raise (KeyError c)
    end.
Proof.
  unfold complement.
  assert (H : complement_loop segment
              = match first_bad segment with
                | None => Ok tt
                | Some c => Raise (KeyError c)
                end).
  { unfold first_bad. induction segment as [|c s IH]; [reflexivity|].
    cbn [find complement_loop]. destruct (REVERSE c) eqn:E.
    - destruct (mem c (py "ATGC")) eqn:M.
      + cbn [negb]. exact IH.
      + apply REVERSE_None in M. congruence.
    - apply REVERSE_None in E. rewrite E. reflexivity. }
  rewrite H. destruct (first_bad segment); reflexivity.
Qed.

(** X5. [complement] either returns the segment it was given, when all its
    characters are keys of [REVERSE], or raises [KeyError] with the first
    character that is not. *)
Theorem complement_first_bad (segment : str) :
  complement segment
  = match first_bad segment with
    | None => Ok segment
    | Some c => Raise (KeyError c)
    end.
Proof. apply complement_by_first_bad. Qed.

(** ** Further properties: the two files *)

Lemma parse_scaffolds_outcomes_aux (joinpath : string -> string -> string)
  (open_file : string -> option text_file) (project : Project) :
  match parse_scaffolds joinpath open_file project with
  | (out, Done (sc1, sc2)) => out = [] /\ validated sc1 /\ validated sc2
  | (out, Raised e) =>
      (out = ["faulty sequence"%string] /\ e = SystemExit 0)
      \/ (out = [] /\ e = UnicodeDecodeError
          /\ exists path, open_file path = Some Undecodable)
  | (out, OSError path) => out = [] /\ open_file path = None
  end.
Proof.
  unfold parse_scaffolds.
  destruct (open_file (joinpath (folder project) (sc1_path project)))
    as [f1|] eqn:O1; [|split; [reflexivity | exact O1]].
  destruct (proc_infile f1) as [out1 [sc1|e1]] eqn:P1.
  - destruct (proc_infile_ok f1 out1 sc1 P1) as [-> V1].
    destruct (open_file (joinpath (folder project) (sc2_path project)))
      as [f2|] eqn:O2; [|split; [reflexivity | exact O2]].
    destruct (proc_infile f2) as [out2 [sc2|e2]] eqn:P2.
    + destruct (proc_infile_ok f2 out2 sc2 P2) as [-> V2]. auto.
    + destruct (proc_infile_raise f2 out2 e2 P2) as [[-> ->] | (-> & -> & ->)].
      * left. auto.
      * right. repeat split. eexists. exact O2.
  - destruct (proc_infile_raise f1 out1 e1 P1) as [[-> ->] | (-> & -> & ->)].
    + left. auto.
    + right. repeat split. eexists. exact O1.
Qed.

(** X6. [parse_scaffolds] has four kinds of outcome.  It returns two
    sequences, both validated, with nothing printed.  It exits with code
    0 after printing one message.  It raises [UnicodeDecodeError], with
    nothing printed, when a file it opened cannot be decoded.  Or an
    [open] fails, with nothing printed, on a path that cannot be
    opened. *)
Theorem parse_scaffolds_outcomes (joinpath : string -> string -> string)
  (open_file : string -> option text_file) (project : Project) :
  match parse_scaffolds joinpath open_file project with
  | (out, Done (sc1, sc2)) => out = [] /\ validated sc1 /\ validated sc2
  | (out, Raised e) =>
      (out = ["faulty sequence"%string] /\ e = SystemExit 0)
      \/ (out = [] /\ e = UnicodeDecodeError
          /\ exists path, open_file path = Some Undecodable)
  | (out, OSError path) => out = [] /\ open_file path = None
  end.
Proof. apply parse_scaffolds_outcomes_aux. Qed.

(** X7. A first file that decodes and whose first line, in upper case,
    contains a character outside A, T, G, C ends the run before the second
    file is looked at: the outcome is the exit, whether the second file
    exists, decodes, is faulty or is fine. *)
Theorem parse_scaffolds_first_file_first
  (joinpath : string -> string -> string)
  (open_file : string -> option text_file) (project : Project)
  (text1 : str) :
  open_file (joinpath (folder project) (sc1_path project))
  = Some (Text text1) ->
  issubset (upper (first_line text1)) (py "ATGC") = false ->
  parse_scaffolds joinpath open_file project
  = (["faulty sequence"%string], Raised (SystemExit 0)).
Proof.
  intros O1 Hbad. unfold parse_scaffolds. rewrite O1.
  rewrite proc_infile_first, Hbad. reflexivity.
Qed.

(** X8. The sequences that [parse_scaffolds] returns can always be scored:
    on them [check_ortho] raises nothing, for every configuration. *)
Theorem parse_scaffolds_then_check_ortho
  (joinpath : string -> string -> string)
  (open_file : string -> option text_file) (project : Project)
  (out : list string) (sc1 sc2 : str) :
  parse_scaffolds joinpath open_file project = (out, Done (sc1, sc2)) ->
  forall config : Project,
    exists r : Output, check_ortho sc1 sc2 config = Ok r.
Proof.
  intros H config.
  pose proof (parse_scaffolds_outcomes_aux joinpath open_file project) as V.
  rewrite H in V. destruct V as (_ & _ & V2).
  destruct (check_ortho_run config sc1 sc2 (fun _ => V2)) as (r & Hr & _).
  exists r. exact Hr.
Qed.

(** ** Further properties: when nothing is counted *)

Lemma check_ortho_zero (p : Project) (sc1 sc2 : str) :
  (get_rev_compl p = true -> validated sc2) ->
  (forall i, exact_matches p sc1 sc2 i = 0) ->
  (forall i, rc_matches p sc1 sc2 i = 0) ->
  check_ortho sc1 sc2 p = Ok (zero_output p).
Proof.
  intros Hok He Hr.
  destruct (check_ortho_run p sc1 sc2 Hok)
    as (r & Hrun & Hc & Hcr & Hn & Hnr & Hcc & Hcrc).
  destruct (total_zero sc1 (exact_matches p sc1 sc2) He) as [Ht Hrep].
  destruct (total_zero sc1 (rc_matches p sc1 sc2) Hr) as [Htr Hrepr].
  rewrite Hrun. f_equal.
  destruct r as [c cr cc crc nc ncr]. simpl in *.
  rewrite Hn, Hc, Ht, Hrep in Hcc.
  rewrite Hnr, Hcr, Htr, Hrepr in Hcrc.
  unfold zero_output. subst c cr nc ncr cc crc.
  rewrite Ht, Htr, Hrep, Hrepr.
  destruct (get_rev_compl p); reflexivity.
Qed.

Lemma no_match_no_counts (p : Project) (sc1 sc2 : str) :
  (forall seg1 seg2, is_match seg1 seg2 p = false) ->
  forall i, exact_matches p sc1 sc2 i = 0 /\ rc_matches p sc1 sc2 i = 0.
Proof.
  intros H i. unfold exact_matches, rc_matches. split.
  - apply hits_none. intros j _. apply H.
  - destruct (get_rev_compl p); [|reflexivity].
    apply hits_none. intros j _. apply H.
Qed.

(** X9. An empty sequence on either side gives the result in which
    nothing was counted; an empty first sequence does so whatever the
    second one contains. *)
Theorem check_ortho_empty (s : str) (p : Project) :
  check_ortho [] s p = Ok (zero_output p)
  /\ check_ortho s [] p = Ok (zero_output p).
Proof.
  split.
  - unfold check_ortho, zero_output.
    destruct (circularise_sc p [] s) as [f1 f2].
    destruct (get_rev_compl p); reflexivity.
  - apply check_ortho_zero; [reflexivity | reflexivity |].
    intros i. unfold rc_matches. destruct (get_rev_compl p); reflexivity.
Qed.

(** X10. [check_ortho] raises nothing when reverse-complement mode is off,
    whatever characters the two sequences contain, and nothing when the
    second sequence is validated, whatever the first one contains. *)
Theorem check_ortho_returns (p : Project) (sc1 sc2 : str) :
  get_rev_compl p = false \/ validated sc2 ->
  exists r : Output, check_ortho sc1 sc2 p = Ok r.
Proof.
  intros H.
  destruct (check_ortho_run p sc1 sc2) as (r & Hr & _).
  - destruct H as [H | H]; [congruence | intros _; exact H].
  - exists r. exact Hr.
Qed.

(** X11. A negative segment length matches nothing: the result is the one
    in which nothing was counted. *)
Theorem check_ortho_negative_n (p : Project) (sc1 sc2 : str) :
  validated sc2 -> n p < 0 ->
  check_ortho sc1 sc2 p = Ok (zero_output p).
Proof.
  intros H2 Hn.
  assert (Hno : forall seg1 seg2, is_match seg1 seg2 p = false).
  { intros seg1 seg2. apply is_match_short. left. unfold len. lia. }
  apply check_ortho_zero; [intros _; exact H2 | |];
    intros i; apply (no_match_no_counts p sc1 sc2 Hno i).
Qed.

Lemma linear_sc1_full (p : Project) (sc1 sc2 : str) :
  is_linear p = true -> sc1_full p sc1 sc2 = sc1.
Proof.
  intros H. unfold sc1_full, circularise_sc. rewrite H. reflexivity.
Qed.

(** X12. In linear topology a segment length above the length of the
    first sequence matches nothing either. *)
Theorem check_ortho_long_segment_sc1 (p : Project) (sc1 sc2 : str) :
  validated sc2 -> is_linear p = true -> n p > len sc1 ->
  check_ortho sc1 sc2 p = Ok (zero_output p).
Proof.
  intros H2 Hlin Hn.
  assert (Hw : forall i, len (window1 p sc1 sc2 i) <> n p).
  { intros i. unfold window1. rewrite (linear_sc1_full p sc1 sc2 Hlin).
    pose proof (slice_len_le sc1 i (i + n p)). lia. }
  apply check_ortho_zero; [intros _; exact H2 | |]; intros i.
  - apply hits_none. intros j _. apply is_match_short. left. apply Hw.
  - unfold rc_matches. destruct (get_rev_compl p); [|reflexivity].
    apply hits_none. intros j _. apply is_match_short. left. apply Hw.
Qed.

Lemma exact_matches_config (p q : Project) (sc1 sc2 : str) (i : Z) :
  n p = n q -> is_linear p = is_linear q ->
  exact_matches p sc1 sc2 i = exact_matches q sc1 sc2 i.
Proof.
  intros Hn Hl.
  unfold exact_matches, window1, window2, sc1_full, sc2_full,
    circularise_sc, is_match.
  rewrite Hn, Hl. reflexivity.
Qed.

(** X13. The exact results depend on the segment length and the topology
    only: two configurations that agree on them, whatever their
    reverse-complement mode and their paths, give the same raw count,
    corrected count and repeat-multiplicity sequence. *)
Theorem exact_results_config (p q : Project) (sc1 sc2 : str) :
  validated sc2 -> n p = n q -> is_linear p = is_linear q ->
  exists r r' : Output,
    check_ortho sc1 sc2 p = Ok r /\ check_ortho sc1 sc2 q = Ok r'
    /\ count r = count r'
    /\ count_corrected r = count_corrected r'
    /\ n_count r = n_count r'.
Proof.
  intros H2 Hn Hl.
  destruct (check_ortho_run p sc1 sc2 (fun _ => H2))
    as (r & Hr & Hc & _ & Hnc & _ & Hcc & _).
  destruct (check_ortho_run q sc1 sc2 (fun _ => H2))
    as (r' & Hr' & Hc' & _ & Hnc' & _ & Hcc' & _).
  exists r, r'. split; [exact Hr|]. split; [exact Hr'|].
  assert (E : map (exact_matches p sc1 sc2) (range (length sc1))
              = map (exact_matches q sc1 sc2) (range (length sc1))).
  { apply map_ext. intros i. apply exact_matches_config; assumption. }
  assert (Ec : count r = count r').
  { rewrite Hc, Hc'. unfold total. rewrite E. reflexivity. }
  assert (En : n_count r = n_count r').
  { rewrite Hnc, Hnc'. unfold repeats. rewrite E. reflexivity. }
  split; [exact Ec|]. split; [|exact En].
  rewrite Hcc, Hcc', Ec, En. reflexivity.
Qed.

(** ** Further properties: what the counts count *)

Lemma range_In (k : nat) (i : Z) :
  In i (range k) <-> 0 <= i < Z.of_nat k.
Proof.
  unfold range. rewrite in_map_iff. split.
  - intros (m & <- & Hm). apply in_seq in Hm. lia.
  - intros H. exists (Z.to_nat i). split; [lia|]. apply in_seq. lia.
Qed.

Lemma len_range (k : nat) : len (range k) = Z.of_nat k.
Proof. unfold len, range. rewrite length_map, length_seq. reflexivity. Qed.

Lemma hits_le (f : Z -> bool) (js : list Z) : 0 <= hits f js <= len js.
Proof.
  unfold hits, len. pose proof (filter_length_le f js). lia.
Qed.

Lemma hits_all (f : Z -> bool) (js : list Z) :
  (forall j, In j js -> f j = true) -> hits f js = len js.
Proof.
  induction js as [|j js IH]; intros H; [reflexivity|].
  rewrite hits_cons, H by (simpl; auto).
  rewrite IH by (intros k Hk; apply H; simpl; auto).
  unfold len. simpl length. lia.
Qed.

Lemma hits_pos (f : Z -> bool) (js : list Z) (j : Z) :
  In j js -> f j = true -> 1 <= hits f js.
Proof.
  induction js as [|k js IH]; intros Hin Hf; [contradiction|].
  rewrite hits_cons. pose proof (hits_le f js) as Hle.
  destruct Hin as [-> | Hin].
  - rewrite Hf. lia.
  - specialize (IH Hin Hf). destruct (f k); lia.
Qed.

Lemma sum_cons (c : Z) (l : list Z) : sum (c :: l) = c + sum l.
Proof. reflexivity. Qed.

Lemma len_cons {A : Type} (x : A) (l : list A) : len (x :: l) = 1 + len l.
Proof. unfold len. simpl length. lia. Qed.

(** The correction leaves one unit for each counter that is not zero. *)
Lemma corrected_formula (l : list Z) :
  Forall (fun c => 0 <= c) l ->
  sum l - (sum (keep_repeats l) - len (keep_repeats l))
  = len (filter (fun c => 1 <=? c) l).
Proof.
  induction 1 as [|c l Hc Hl IH]; [reflexivity|].
  unfold keep_repeats in *. cbn [filter]. rewrite sum_cons.
  destruct (1 <? c) eqn:E1, (1 <=? c) eqn:E2;
    rewrite ?sum_cons, ?len_cons; lia.
Qed.

Lemma sum_map_bounds (counter : Z -> Z) (l : list Z) (lo hi : Z) :
  (forall i, In i l -> lo <= counter i <= hi) ->
  lo * len l <= sum (map counter l) <= hi * len l.
Proof.
  induction l as [|i l IH]; intros H.
  - unfold len; simpl. lia.
  - cbn [map]. rewrite sum_cons, len_cons.
    pose proof (H i (or_introl eq_refl)).
    assert (lo * len l <= sum (map counter l) <= hi * len l)
      by (apply IH; intros k Hk; apply H; simpl; auto).
    lia.
Qed.

Lemma exact_matches_bounds (p : Project) (sc1 sc2 : str) (i : Z) :
  0 <= exact_matches p sc1 sc2 i <= len sc2.
Proof.
  unfold exact_matches.
  pose proof (hits_le (fun j => is_match (window1 p sc1 sc2 i)
                                  (window2 p sc1 sc2 j) p)
                (range (length sc2))) as H.
  rewrite len_range in H. exact H.
Qed.

(** X14. The corrected exact count is the number of starting positions of
    the first sequence that match somewhere in the second one.  It lies
    between 0 and the length of the first sequence, and the raw count
    between it and the product of the two lengths. *)
Theorem corrected_counts_positions (p : Project) (sc1 sc2 : str) :
  validated sc2 ->
  exists r : Output,
    check_ortho sc1 sc2 p = Ok r
    /\ count_corrected r = positions_matched sc1 (exact_matches p sc1 sc2)
    /\ 0 <= count_corrected r <= len sc1
    /\ count_corrected r <= count r <= len sc1 * len sc2.
Proof.
  intros H2.
  destruct (check_ortho_run p sc1 sc2 (fun _ => H2))
    as (r & Hr & Hc & _ & Hn & _ & Hcc & _).
  exists r. split; [exact Hr|].
  assert (Hpos : Forall (fun c => 0 <= c)
                   (map (exact_matches p sc1 sc2) (range (length sc1)))).
  { apply Forall_forall. intros c Hc'. apply in_map_iff in Hc'.
    destruct Hc' as (i & <- & _). apply exact_matches_bounds. }
  assert (E : count_corrected r
              = positions_matched sc1 (exact_matches p sc1 sc2)).
  { rewrite Hcc, Hn, Hc. unfold total, repeats, positions_matched.
    apply (corrected_formula _ Hpos). }
  split; [exact E|].
  assert (Hm : 0 <= positions_matched sc1 (exact_matches p sc1 sc2)
               <= len sc1).
  { unfold positions_matched, len.
    pose proof (filter_length_le (fun c => 1 <=? c)
                  (map (exact_matches p sc1 sc2) (range (length sc1)))) as F.
    assert (L : length (map (exact_matches p sc1 sc2) (range (length sc1)))
                = length sc1)
      by (unfold range; rewrite !length_map, length_seq; reflexivity).
    rewrite L in F. lia. }
  split; [rewrite E; exact Hm|].
  pose proof (sum_map_bounds (exact_matches p sc1 sc2)
                (range (length sc1)) 0 (len sc2)
                (fun i _ => exact_matches_bounds p sc1 sc2 i)) as B.
  rewrite len_range in B. fold (len sc1) in B.
  destruct (excess_nonneg (n_count r)) as [Hge _].
  { rewrite Hn. apply repeats_gt_1. }
  rewrite Hc. unfold total. rewrite Hc in Hcc. unfold total in Hcc. lia.
Qed.

Lemma sum_map_const (c : Z) (l : list Z) (counter : Z -> Z) :
  (forall i, In i l -> counter i = c) -> sum (map counter l) = c * len l.
Proof.
  intros H.
  pose proof (sum_map_bounds counter l c c) as B.
  assert (forall i, In i l -> c <= counter i <= c)
    by (intros i Hi; rewrite (H i Hi); lia).
  specialize (B H0). lia.
Qed.

Lemma filter_all {A : Type} (f : A -> bool) (l : list A) :
  (forall x, In x l -> f x = true) -> filter f l = l.
Proof.
  induction l as [|x l IH]; intros H; [reflexivity|].
  simpl. rewrite H by (simpl; auto). f_equal.
  apply IH. intros y Hy. apply H. simpl; auto.
Qed.

Lemma positions_matched_all (sc1 : str) (counter : Z -> Z) :
  (forall i, In i (range (length sc1)) -> 1 <= counter i) ->
  positions_matched sc1 counter = len sc1.
Proof.
  intros H. unfold positions_matched.
  rewrite filter_all.
  - unfold len. rewrite length_map.
    fold (len (range (length sc1))). apply len_range.
  - intros c Hc. apply in_map_iff in Hc. destruct Hc as (i & <- & Hi).
    apply Z.leb_le, H, Hi.
Qed.

Lemma slice_nothing (s : str) (i : Z) : slice s i (i + 0) = [].
Proof.
  unfold slice. rewrite Z.add_0_r, Z.sub_diag. reflexivity.
Qed.

Lemma slice_rev_nothing (s : str) (j : Z) : slice_rev s (j + 0) j = [].
Proof.
  unfold slice_rev. rewrite Z.add_0_r, Z.sub_diag. reflexivity.
Qed.

Lemma positions_matched_none (sc1 : str) (counter : Z -> Z) :
  (forall i, counter i < 1) -> positions_matched sc1 counter = 0.
Proof.
  intros H. unfold positions_matched.
  induction (range (length sc1)) as [|i l IH]; [reflexivity|].
  cbn [map filter].
  replace (1 <=? counter i) with false; [exact IH|].
  symmetry. apply Z.leb_gt, H.
Qed.

(** X15. With segment length 0 every pair of starting positions matches:
    the raw counts are the product of the two lengths, and the corrected
    exact count is the length of the first sequence unless the second one
    is empty. *)
Theorem check_ortho_zero_n (p : Project) (sc1 sc2 : str) :
  validated sc2 -> n p = 0 ->
  exists r : Output,
    check_ortho sc1 sc2 p = Ok r
    /\ count r = len sc1 * len sc2
    /\ count_revcompl r
       = (if get_rev_compl p then Int (len sc1 * len sc2) else NaN)
    /\ count_corrected r = (if 1 <=? len sc2 then len sc1 else 0).
Proof.
  intros H2 Hn.
  destruct (check_ortho_run p sc1 sc2 (fun _ => H2))
    as (r & Hr & Hc & Hcr & Hnc & _ & Hcc & _).
  exists r. split; [exact Hr|].
  assert (Hm : is_match [] [] p = true)
    by (unfold is_match; rewrite Hn; reflexivity).
  assert (He : forall i, exact_matches p sc1 sc2 i = len sc2).
  { intros i. unfold exact_matches, window1, window2.
    rewrite Hn, slice_nothing.
    rewrite hits_all; [apply len_range|].
    intros j _. rewrite slice_nothing. exact Hm. }
  assert (Hrc : get_rev_compl p = true ->
                forall i, rc_matches p sc1 sc2 i = len sc2).
  { intros E i. unfold rc_matches, window1, window2_rev.
    rewrite E, Hn, slice_nothing.
    rewrite hits_all; [apply len_range|].
    intros j _. rewrite slice_rev_nothing. exact Hm. }
  assert (Ht : total sc1 (exact_matches p sc1 sc2) = len sc1 * len sc2).
  { unfold total. rewrite (sum_map_const (len sc2)) by (intros; apply He).
    rewrite len_range. unfold len. lia. }
  split; [rewrite Hc; exact Ht|]. split.
  - rewrite Hcr. destruct (get_rev_compl p) eqn:E; [|reflexivity].
    f_equal. unfold total.
    rewrite (sum_map_const (len sc2)) by (intros; apply Hrc; reflexivity).
    rewrite len_range. unfold len. lia.
  - assert (Hpos : Forall (fun c => 0 <= c)
                     (map (exact_matches p sc1 sc2) (range (length sc1)))).
    { apply Forall_forall. intros c Hc'. apply in_map_iff in Hc'.
      destruct Hc' as (i & <- & _). apply exact_matches_bounds. }
    rewrite Hcc, Hnc, Hc. unfold total, repeats.
    etransitivity; [apply (corrected_formula _ Hpos)|].
    fold (positions_matched sc1 (exact_matches p sc1 sc2)).
    destruct (1 <=? len sc2) eqn:E.
    + apply (positions_matched_all sc1). intros i _. rewrite He.
      apply Z.leb_le, E.
    + apply positions_matched_none. intros i. rewrite He.
      apply Z.leb_gt, E.
Qed.

Lemma check_ortho_run_positions (p : Project) (sc1 sc2 : str) :
  validated sc2 ->
  exists r : Output,
    check_ortho sc1 sc2 p = Ok r
    /\ count r = total sc1 (exact_matches p sc1 sc2)
    /\ count_corrected r = positions_matched sc1 (exact_matches p sc1 sc2).
Proof.
  intros H2.
  destruct (check_ortho_run p sc1 sc2 (fun _ => H2))
    as (r & Hr & Hc & _ & Hn & _ & Hcc & _).
  exists r. split; [exact Hr|]. split; [exact Hc|].
  rewrite Hcc, Hn, Hc. unfold total, repeats, positions_matched.
  apply corrected_formula.
  apply Forall_forall. intros c Hc'. apply in_map_iff in Hc'.
  destruct Hc' as (i & <- & _). apply exact_matches_bounds.
Qed.

Lemma full_extended (p : Project) (sc1 sc2 : str) :
  sc1_full p sc1 sc2 = extended p sc1 /\ sc2_full p sc1 sc2 = extended p sc2.
Proof.
  unfold sc1_full, sc2_full, circularise_sc, extended.
  destruct (is_linear p); split; reflexivity.
Qed.

Lemma slice_len_exact (s : str) (i k : Z) :
  0 <= i -> 0 <= k -> i + k <= len s -> len (slice s i (i + k)) = k.
Proof.
  intros Hi Hk Hle. unfold slice, adjust_fwd.
  replace (i <? 0) with false by (symmetry; apply Z.ltb_ge; lia).
  replace (i + k <? 0) with false by (symmetry; apply Z.ltb_ge; lia).
  unfold len in *. rewrite length_firstn, length_skipn. lia.
Qed.

Lemma len_extended_circular (p : Project) (s : str) :
  is_linear p = false -> 0 <= n p ->
  len (extended p s) = len s + Z.min (n p) (len s).
Proof.
  intros Hl Hn. unfold extended. rewrite Hl, slice_to_firstn by exact Hn.
  unfold len. rewrite length_app, length_firstn. lia.
Qed.

(** X16. Scoring a sequence against itself in circular topology, with a
    segment length between 1 and the length of the sequence: every
    starting position matches at least itself, so the corrected exact
    count is the length of the sequence and the raw count is at least
    that. *)
Theorem check_ortho_self (p : Project) (s : str) :
  validated s -> is_linear p = false -> 1 <= n p <= len s ->
  exists r : Output,
    check_ortho s s p = Ok r
    /\ count_corrected r = len s
    /\ len s <= count r.
Proof.
  intros Hs Hl Hn.
  destruct (check_ortho_run_positions p s s Hs) as (r & Hr & Hc & Hcc).
  exists r. split; [exact Hr|].
  assert (Hone : forall i, In i (range (length s)) ->
                   1 <= exact_matches p s s i <= len s).
  { intros i Hi. split; [|apply exact_matches_bounds].
    unfold exact_matches. apply (hits_pos _ _ i Hi).
    unfold window1, window2.
    destruct (full_extended p s s) as [-> ->].
    apply is_match_true. split; [reflexivity|].
    apply range_In in Hi.
    apply slice_len_exact; try lia.
    rewrite (len_extended_circular p s Hl) by lia. unfold len in *. lia. }
  split.
  - rewrite Hcc. apply positions_matched_all. intros i Hi. apply Hone, Hi.
  - rewrite Hc. unfold total.
    pose proof (sum_map_bounds (exact_matches p s s) (range (length s))
                  1 (len s) Hone) as B.
    rewrite len_range in B. unfold len in *. lia.
Qed.

Lemma is_match_sym (seg1 seg2 : str) (p : Project) :
  is_match seg1 seg2 p = is_match seg2 seg1 p.
Proof.
  destruct (is_match seg1 seg2 p) eqn:E1, (is_match seg2 seg1 p) eqn:E2;
    try reflexivity.
  - apply is_match_true in E1. destruct E1 as [-> E1].
    assert (is_match seg2 seg2 p = true) by (apply is_match_true; auto).
    congruence.
  - apply is_match_true in E2. destruct E2 as [-> E2].
    assert (is_match seg1 seg1 p = true) by (apply is_match_true; auto).
    congruence.
Qed.

Lemma hits_as_sum (f : Z -> bool) (js : list Z) :
  hits f js = sum (map (fun j => if f j then 1 else 0) js).
Proof.
  induction js as [|j js IH]; [reflexivity|].
  rewrite hits_cons. cbn [map]. rewrite sum_cons, IH. reflexivity.
Qed.

Lemma sum_map_add (f g : Z -> Z) (l : list Z) :
  sum (map (fun j => f j + g j) l) = sum (map f l) + sum (map g l).
Proof.
  induction l as [|j l IH]; [reflexivity|].
  cbn [map]. rewrite !sum_cons, IH. lia.
Qed.

(** Counting the matching pairs by rows or by columns. *)
Lemma double_count (m : Z -> Z -> bool) (rows cols : list Z) :
  sum (map (fun i => hits (fun j => m i j) cols) rows)
  = sum (map (fun j => hits (fun i => m i j) rows) cols).
Proof.
  induction rows as [|i rows IH].
  - simpl. symmetry. apply (sum_map_const 0 cols). reflexivity.
  - cbn [map]. rewrite sum_cons, IH.
    rewrite (map_ext (fun j => hits (fun i0 => m i0 j) (i :: rows))
               (fun j => (if m i j then 1 else 0)
                         + hits (fun i0 => m i0 j) rows))
      by (intros j; exact (hits_cons (fun i0 => m i0 j) i rows)).
    rewrite sum_map_add, <- hits_as_sum. reflexivity.
Qed.

(** X17. The raw exact count does not depend on the order of the two
    sequences. *)
Theorem count_symmetric (p : Project) (sc1 sc2 : str) :
  validated sc1 -> validated sc2 ->
  exists r r' : Output,
    check_ortho sc1 sc2 p = Ok r /\ check_ortho sc2 sc1 p = Ok r'
    /\ count r = count r'.
Proof.
  intros H1 H2.
  destruct (check_ortho_run p sc1 sc2 (fun _ => H2)) as (r & Hr & Hc & _).
  destruct (check_ortho_run p sc2 sc1 (fun _ => H1)) as (r' & Hr' & Hc' & _).
  exists r, r'. split; [exact Hr|]. split; [exact Hr'|].
  rewrite Hc, Hc'. unfold total, exact_matches, window1, window2.
  destruct (full_extended p sc1 sc2) as [-> ->].
  destruct (full_extended p sc2 sc1) as [-> ->].
  rewrite (double_count
             (fun i j => is_match (slice (extended p sc1) i (i + n p))
                           (slice (extended p sc2) j (j + n p)) p)).
  f_equal. apply map_ext. intros j. unfold hits. f_equal. apply filter_ext.
  intros i. apply is_match_sym.
Qed.

Lemma slice_rev_as_slice (s : str) (j k : Z) :
  0 <= j -> 0 <= k ->
  slice_rev s (j + k) j = rev (slice s (j + 1) (j + 1 + k)).
Proof.
  intros Hj Hk. unfold slice_rev, slice, adjust_bwd, adjust_fwd.
  replace (j <? 0) with false by (symmetry; apply Z.ltb_ge; lia).
  replace (j + k <? 0) with false by (symmetry; apply Z.ltb_ge; lia).
  replace (j + 1 <? 0) with false by (symmetry; apply Z.ltb_ge; lia).
  replace (j + 1 + k <? 0) with false by (symmetry; apply Z.ltb_ge; lia).
  f_equal.
  destruct (Z.le_gt_cases (j + 1) (len s)) as [H | H].
  - f_equal; [lia | f_equal; lia].
  - replace (Z.to_nat (Z.min (j + k) (len s - 1) - Z.min j (len s - 1)))
      with 0%nat by lia.
    rewrite (skipn_all2 s (n := Z.to_nat (Z.min (j + 1) (len s))))
      by (unfold len in *; lia).
    rewrite firstn_nil. reflexivity.
Qed.

(** X18. The window that the reverse-complement test reads at position j
    is the reversal of the forward window that starts one position
    further, at j + 1. *)
Theorem window2_rev_shifted (p : Project) (sc1 sc2 : str) (j : Z) :
  0 <= j -> 0 <= n p ->
  window2_rev p sc1 sc2 j = rev (window2 p sc1 sc2 (j + 1)).
Proof.
  intros Hj Hn. unfold window2_rev, window2.
  apply slice_rev_as_slice; assumption.
Qed.

(** X19. In circular topology the extended sequences grow by the segment
    length, but by no more than one copy of the sequence: from a segment
    length equal to the length of a sequence on, that sequence is
    doubled. *)
Theorem circularise_sc_wraps_once (p : Project) (sc1 sc2 : str) :
  is_linear p = false -> 0 <= n p ->
  len (fst (circularise_sc p sc1 sc2)) = len sc1 + Z.min (n p) (len sc1)
  /\ len (snd (circularise_sc p sc1 sc2)) = len sc2 + Z.min (n p) (len sc2)
  /\ (len sc1 <= n p -> fst (circularise_sc p sc1 sc2) = sc1 ++ sc1)
  /\ (len sc2 <= n p -> snd (circularise_sc p sc1 sc2) = sc2 ++ sc2).
Proof.
  intros Hl Hn.
  fold (sc1_full p sc1 sc2) (sc2_full p sc1 sc2).
  destruct (full_extended p sc1 sc2) as [-> ->].
  rewrite !len_extended_circular by assumption.
  split; [reflexivity|]. split; [reflexivity|].
  unfold extended. rewrite Hl, !slice_to_firstn by exact Hn.
  split; intros H; rewrite firstn_all2 by (unfold len in H; lia);
    reflexivity.
Qed.

(** ** Further properties: characters outside the alphabet *)

Lemma for_each_raise {A S : Type} (P : exn -> Prop)
  (body : A -> S -> res S) (xs : list A) :
  (forall x s, In x xs ->
     (exists s', body x s = Ok s') \/ (exists e, body x s = Raise e /\ P e)) ->
  (exists x, In x xs /\ forall s, exists e, body x s = Raise e /\ P e) ->
  forall s, exists e, for_each xs body s = Raise e /\ P e.
Proof.
  induction xs as [|x xs IH]; intros Hall (x0 & Hin & Hx0) s.
  - contradiction.
  - simpl. destruct (Hall x s (or_introl eq_refl)) as [(s' & E) | (e & E & He)].
    + rewrite E. simpl. apply IH.
      * intros y t Hy. apply Hall. right. exact Hy.
      * destruct Hin as [-> | Hin].
        -- destruct (Hx0 s) as (e & E' & _). congruence.
        -- exists x0. split; assumption.
    + rewrite E. simpl. exists e. split; [reflexivity | exact He].
Qed.

Lemma complement_outcome (segment : str) :
  complement segment = Ok segment
  \/ exists e, complement segment = Raise e /\ bad_key e.
Proof.
  rewrite complement_by_first_bad. unfold first_bad.
  destruct (find _ segment) as [c|] eqn:F; [right | left; reflexivity].
  apply find_some in F. destruct F as [_ F].
  exists (KeyError c). split; [reflexivity|]. exists c. split; [reflexivity|].
  apply negb_true_iff, F.
Qed.

Lemma complement_raises (segment : str) (c : ascii) :
  In c segment -> mem c (py "ATGC") = false ->
  exists e, complement segment = Raise e /\ bad_key e.
Proof.
  intros Hin Hc. destruct (complement_outcome segment) as [E | E]; [|exact E].
  rewrite complement_by_first_bad in E. unfold first_bad in E.
  destruct (find _ segment) as [d|] eqn:F; [discriminate|].
  pose proof (find_none _ _ F c Hin) as N. cbv beta in N.
  rewrite Hc in N. discriminate.
Qed.

Section BadCharacter.

Variable project : Project.
Variables sc1_seg sc2f : str.
Hypothesis rc_on : get_rev_compl project = true.

Lemma inner_body_outcome (j : Z) (v : Vars.t) :
  (exists v', inner_body project sc1_seg sc2f j v = Ok v')
  \/ (exists e, inner_body project sc1_seg sc2f j v = Raise e /\ bad_key e).
Proof.
  unfold inner_body. rewrite rc_on.
  destruct (complement_outcome (slice_rev sc2f (j + n project) j))
    as [E | (e & E & He)]; rewrite E; simpl.
  - left. eexists. reflexivity.
  - right. exists e. split; [reflexivity | exact He].
Qed.

Lemma inner_body_raises (j : Z) (c : ascii) :
  In c (slice_rev sc2f (j + n project) j) -> mem c (py "ATGC") = false ->
  forall v, exists e,
    inner_body project sc1_seg sc2f j v = Raise e /\ bad_key e.
Proof.
  intros Hin Hc v. unfold inner_body. rewrite rc_on.
  destruct (complement_raises _ c Hin Hc) as (e & E & He).
  rewrite E. simpl. exists e. split; [reflexivity | exact He].
Qed.

End BadCharacter.

Lemma slice_rev_reads (pre post : str) (c : ascii) (k : Z) :
  pre <> [] -> 1 <= k ->
  In c (slice_rev (pre ++ c :: post) (len pre - 1 + k) (len pre - 1)).
Proof.
  intros Hpre Hk.
  assert (Hlen : 1 <= len pre).
  { destruct pre; [contradiction|]. rewrite len_cons. unfold len. lia. }
  rewrite slice_rev_as_slice by lia. apply -> in_rev.
  unfold slice, adjust_fwd.
  replace (len pre - 1 + 1 <? 0) with false by (symmetry; apply Z.ltb_ge; lia).
  replace (len pre - 1 + 1 + k <? 0) with false
    by (symmetry; apply Z.ltb_ge; lia).
  assert (HL : len (pre ++ c :: post) = len pre + 1 + len post).
  { unfold len. rewrite length_app. simpl length. lia. }
  rewrite HL.
  replace (Z.to_nat (Z.min (len pre - 1 + 1) (len pre + 1 + len post)))
    with (length pre) by (unfold len; lia).
  rewrite skipn_app, Nat.sub_diag, skipn_all. simpl skipn. simpl app.
  destruct (Z.to_nat (Z.min (len pre - 1 + 1 + k) (len pre + 1 + len post)
                      - Z.min (len pre - 1 + 1) (len pre + 1 + len post)))
    as [|m] eqn:E; [unfold len in *; lia|].
  simpl. left. reflexivity.
Qed.

(** X20. With reverse-complement mode on, a segment length of at least 1
    and a non-empty first sequence, a character outside A, T, G, C
    anywhere after the first position of the second sequence makes
    [check_ortho] raise [KeyError], with a key outside the alphabet. *)
Theorem check_ortho_KeyError (p : Project) (sc1 pre post : str) (c : ascii) :
  get_rev_compl p = true -> 1 <= n p -> sc1 <> [] -> pre <> [] ->
  mem c (py "ATGC") = false ->
  exists c' : ascii,
    check_ortho sc1 (pre ++ c :: post) p = Raise (KeyError c')
    /\ mem c' (py "ATGC") = false.
Proof.
  intros Hrc Hn Hsc1 Hpre Hc.
  set (sc2 := pre ++ c :: post).
  assert (Hfull : exists post', sc2_full p sc1 sc2 = pre ++ c :: post').
  { destruct (full_extended p sc1 sc2) as [_ ->]. unfold extended, sc2.
    destruct (is_linear p); [exists post; reflexivity|].
    eexists. rewrite <- app_assoc. reflexivity. }
  destruct Hfull as (post' & Hfull).
  assert (Hinner : forall seg v, exists e,
            for_each (range (length sc2))
              (inner_body p seg (sc2_full p sc1 sc2)) v = Raise e
            /\ bad_key e).
  { intros seg. apply for_each_raise.
    - intros j v _. apply inner_body_outcome, Hrc.
    - exists (len pre - 1). split.
      + apply range_In. unfold sc2, len. rewrite length_app. simpl length.
        destruct pre; [contradiction|]. simpl length. lia.
      + apply (inner_body_raises p seg _ Hrc _ c); [|exact Hc].
        rewrite Hfull. apply slice_rev_reads; assumption. }
  unfold check_ortho.
  rewrite (surjective_pairing (circularise_sc p sc1 sc2)).
  fold (sc1_full p sc1 sc2) (sc2_full p sc1 sc2).
  destruct sc1 as [|b sc1']; [contradiction|].
  unfold range. cbn [length seq map for_each]. unfold outer_body at 1.
  fold (range (length sc2)).
  match goal with
  | |- context [for_each (range (length sc2)) (inner_body p ?seg _) ?v] =>
      destruct (Hinner seg v) as (e & E & (c' & -> & Hc'))
  end.
  rewrite E. simpl. exists c'. split; [reflexivity | exact Hc'].
Qed.

(** ** Further properties: reversed windows, and the two topologies *)

Lemma hits_ext_in (f g : Z -> bool) (js : list Z) :
  (forall j, In j js -> f j = g j) -> hits f js = hits g js.
Proof.
  induction js as [|j js IH]; intros H; [reflexivity|].
  rewrite !hits_cons, (H j) by (simpl; auto).
  rewrite IH by (intros k Hk; apply H; simpl; auto). reflexivity.
Qed.

(** X21. With reverse-complement mode on, the raw reverse-complement count
    is the number of pairs of positions (i, j) at which the window of the
    first sequence at i equals, letter for letter and in full length, the
    reversal of the window of the second sequence at j + 1; no letter is
    substituted. *)
Theorem count_revcompl_counts_reversals (p : Project) (sc1 sc2 : str) :
  validated sc2 -> get_rev_compl p = true -> 0 <= n p ->
  exists r : Output,
    check_ortho sc1 sc2 p = Ok r
    /\ count_revcompl r
       = Int (total sc1 (fun i =>
                hits (fun j => is_match (window1 p sc1 sc2 i)
                                 (rev (window2 p sc1 sc2 (j + 1))) p)
                     (range (length sc2)))).
Proof.
  intros H2 Hrc Hn.
  destruct (check_ortho_run p sc1 sc2 (fun _ => H2))
    as (r & Hr & _ & Hcr & _).
  exists r. split; [exact Hr|].
  rewrite Hcr, Hrc. f_equal. unfold total. f_equal.
  apply map_ext. intros i. unfold rc_matches. rewrite Hrc.
  apply hits_ext_in. intros j Hj. apply range_In in Hj.
  unfold window2_rev, window2.
  rewrite slice_rev_as_slice by lia. reflexivity.
Qed.

Lemma hits_mono (f g : Z -> bool) (js : list Z) :
  (forall j, In j js -> f j = true -> g j = true) ->
  hits f js <= hits g js.
Proof.
  induction js as [|j js IH]; intros H; [reflexivity|].
  rewrite !hits_cons.
  assert (hits f js <= hits g js)
    by (apply IH; intros k Hk; apply H; simpl; auto).
  pose proof (H j (or_introl eq_refl)).
  destruct (f j), (g j); try lia; discriminate (H1 eq_refl).
Qed.

Lemma sum_map_le (f g : Z -> Z) (l : list Z) :
  (forall i, In i l -> f i <= g i) -> sum (map f l) <= sum (map g l).
Proof.
  induction l as [|i l IH]; intros H; [reflexivity|].
  cbn [map]. rewrite !sum_cons.
  assert (sum (map f l) <= sum (map g l))
    by (apply IH; intros k Hk; apply H; simpl; auto).
  pose proof (H i (or_introl eq_refl)). lia.
Qed.

Lemma matched_le (f g : Z -> Z) (l : list Z) :
  (forall i, In i l -> f i <= g i) ->
  len (filter (fun c => 1 <=? c) (map f l))
  <= len (filter (fun c => 1 <=? c) (map g l)).
Proof.
  induction l as [|i l IH]; intros H; [reflexivity|].
  cbn [map filter].
  assert (len (filter (fun c => 1 <=? c) (map f l))
          <= len (filter (fun c => 1 <=? c) (map g l)))
    by (apply IH; intros k Hk; apply H; simpl; auto).
  pose proof (H i (or_introl eq_refl)).
  destruct (1 <=? f i) eqn:Ef, (1 <=? g i) eqn:Eg;
    rewrite ?len_cons; lia.
Qed.

(** A window of full length read from a sequence is read unchanged from
    any extension of the sequence. *)
Lemma slice_app_same (s e : str) (i k : Z) :
  0 <= i -> len (slice s i (i + k)) = k ->
  slice (s ++ e) i (i + k) = slice s i (i + k).
Proof.
  intros Hi Hlen.
  assert (Hk : 0 <= k) by (rewrite <- Hlen; unfold len; lia).
  destruct (Z.eq_dec k 0) as [-> | Hk0]; [rewrite !slice_nothing; reflexivity|].
  assert (Hfit : i + k <= len s).
  { revert Hlen. unfold slice, adjust_fwd.
    replace (i <? 0) with false by (symmetry; apply Z.ltb_ge; lia).
    replace (i + k <? 0) with false by (symmetry; apply Z.ltb_ge; lia).
    unfold len. rewrite length_firstn, length_skipn. lia. }
  unfold slice, adjust_fwd.
  replace (i <? 0) with false by (symmetry; apply Z.ltb_ge; lia).
  replace (i + k <? 0) with false by (symmetry; apply Z.ltb_ge; lia).
  assert (HL : len (s ++ e) = len s + len e)
    by (unfold len; rewrite length_app; lia).
  rewrite HL.
  assert (He : 0 <= len e) by (unfold len; lia).
  rewrite !Z.min_l by lia.
  rewrite skipn_app, firstn_app.
  replace (Z.to_nat (i + k - i) - length (skipn (Z.to_nat i) s))%nat
    with 0%nat by (rewrite length_skipn; unfold len in *; lia).
  rewrite firstn_O, app_nil_r. reflexivity.
Qed.

Lemma is_match_config (seg1 seg2 : str) (p q : Project) :
  n p = n q -> is_match seg1 seg2 p = is_match seg1 seg2 q.
Proof. intros H. unfold is_match. rewrite H. reflexivity. Qed.

Lemma linear_row_le_circular (p q : Project) (sc1 sc2 : str) (i : Z) :
  is_linear p = true -> is_linear q = false -> n p = n q -> 0 <= i ->
  exact_matches p sc1 sc2 i <= exact_matches q sc1 sc2 i.
Proof.
  intros Hp Hq Hn Hi. unfold exact_matches. apply hits_mono.
  intros j Hj. apply range_In in Hj. unfold window1, window2.
  destruct (full_extended p sc1 sc2) as [-> ->].
  destruct (full_extended q sc1 sc2) as [-> ->].
  unfold extended. rewrite Hp, Hq, <- Hn.
  intros M. rewrite <- (is_match_config _ _ p q Hn).
  apply is_match_true in M. destruct M as [Heq Hlen].
  rewrite !slice_app_same; try lia.
  - apply is_match_true. split; assumption.
  - rewrite <- Heq. exact Hlen.
Qed.

(** X22. Circular topology finds every match that linear topology finds:
    for the same sequences and segment length, the raw and the corrected
    exact counts of the linear run are at most those of the circular
    run. *)
Theorem linear_le_circular (p q : Project) (sc1 sc2 : str) :
  validated sc2 ->
  is_linear p = true -> is_linear q = false -> n p = n q ->
  exists r r' : Output,
    check_ortho sc1 sc2 p = Ok r /\ check_ortho sc1 sc2 q = Ok r'
    /\ count r <= count r'
    /\ count_corrected r <= count_corrected r'.
Proof.
  intros H2 Hp Hq Hn.
  destruct (check_ortho_run_positions p sc1 sc2 H2) as (r & Hr & Hc & Hcc).
  destruct (check_ortho_run_positions q sc1 sc2 H2)
    as (r' & Hr' & Hc' & Hcc').
  exists r, r'. split; [exact Hr|]. split; [exact Hr'|].
  assert (Hrow : forall i, In i (range (length sc1)) ->
                   exact_matches p sc1 sc2 i <= exact_matches q sc1 sc2 i).
  { intros i Hi. apply range_In in Hi.
    apply linear_row_le_circular; try assumption. lia. }
  split.
  - rewrite Hc, Hc'. apply sum_map_le, Hrow.
  - rewrite Hcc, Hcc'. apply matched_le, Hrow.
Qed.

(** ** The further properties at concrete inputs *)

(** X1 at the sequence ATGC followed by a second line. *)
Lemma proc_infile_roundtrip_witness :
  validated (py "ATGC")
  /\ proc_infile (Text (py "ATGC")) = ([], Ok (py "ATGC"))
  /\ proc_infile (Text (py "ATGC" ++ LF :: py "xyz")) = ([], Ok (py "ATGC"))
  /\ proc_infile (Text (py "ATGC" ++ CR :: LF :: py "xyz"))
     = ([], Ok (py "ATGC"))
  /\ proc_infile (Text (py "ATGC" ++ CR :: py "xyz")) = ([], Ok (py "ATGC")).
Proof.
  split; [reflexivity|].
  apply (proc_infile_roundtrip (py "ATGC") (py "xyz")). reflexivity.
Defined.

(** X4 at a lower-case file of two lines, the first ended by a carriage
    return and a line feed. *)
Lemma proc_infile_result_witness :
  proc_infile (Text (py "gattaca" ++ CR :: LF :: py "ttt"))
  = ([], Ok (py "GATTACA"))
  /\ validated (py "GATTACA")
  /\ proc_infile (Text (py "GATTACA")) = ([], Ok (py "GATTACA")).
Proof.
  split; [reflexivity|].
  apply (proc_infile_result (Text (py "gattaca" ++ CR :: LF :: py "ttt")) []
           (py "GATTACA")).
  reflexivity.
Defined.

(** X7 with a faulty first file and no second file. *)
Lemma parse_scaffolds_first_file_first_witness :
  parse_scaffolds
    (fun d f => (d ++ f)%string)
    (fun path => if String.eqb path "./sc1.txt"
                 then Some (Text (py "ATXG")) else None)
    (mkProject "./" "sc1.txt" "sc2.txt" 7 false false)
  = (["faulty sequence"%string], Raised (SystemExit 0)).
Proof.
  apply (parse_scaffolds_first_file_first
           (fun d f => (d ++ f)%string)
           (fun path => if String.eqb path "./sc1.txt"
                        then Some (Text (py "ATXG")) else None)
           (mkProject "./" "sc1.txt" "sc2.txt" 7 false false)
           (py "ATXG")); reflexivity.
Defined.

(** X8 with two readable files. *)
Lemma parse_scaffolds_then_check_ortho_witness :
  exists r : Output,
    check_ortho (py "ATGCAT") (py "GGCAT")
      (mkProject "./" "sc1.txt" "sc2.txt" 3 false true) = Ok r.
Proof.
  apply (parse_scaffolds_then_check_ortho
           (fun d f => (d ++ f)%string)
           (fun path =>
              if String.eqb path "./sc1.txt"
              then Some (Text (py "atgcat" ++ [CR; LF]))
              else if String.eqb path "./sc2.txt"
                   then Some (Text (py "GGCAT"))
                   else None)
           (mkProject "./" "sc1.txt" "sc2.txt" 3 false true)
           [] (py "ATGCAT") (py "GGCAT")).
  reflexivity.
Defined.

(** X10 with reverse-complement mode off and characters outside the
    alphabet on both sides. *)
Lemma check_ortho_returns_witness :
  exists r : Output,
    check_ortho (py "AXGN") (py "NNAX")
      (mkProject "./" "sc1.txt" "sc2.txt" 2 false false) = Ok r.
Proof.
  apply (check_ortho_returns
           (mkProject "./" "sc1.txt" "sc2.txt" 2 false false)
           (py "AXGN") (py "NNAX")).
  left. reflexivity.
Defined.

(** X11 at segment length -2. *)
Lemma check_ortho_negative_n_witness :
  validated (py "ATGC")
  /\ check_ortho (py "ATGC") (py "ATGC")
       (mkProject "./" "sc1.txt" "sc2.txt" (-2) false true)
     = Ok (mkOutput 0 (Int 0) 0 (Int 0) [] []).
Proof.
  split; [reflexivity|].
  apply (check_ortho_negative_n
           (mkProject "./" "sc1.txt" "sc2.txt" (-2) false true)
           (py "ATGC") (py "ATGC")); reflexivity.
Defined.

(** X12 at sc1 = AT, sc2 = ATAT, segment length 3, linear. *)
Lemma check_ortho_long_segment_sc1_witness :
  validated (py "ATAT")
  /\ check_ortho (py "AT") (py "ATAT")
       (mkProject "./" "sc1.txt" "sc2.txt" 3 true false)
     = Ok (mkOutput 0 NaN 0 NaN [] []).
Proof.
  split; [reflexivity|].
  apply (check_ortho_long_segment_sc1
           (mkProject "./" "sc1.txt" "sc2.txt" 3 true false)
           (py "AT") (py "ATAT")); reflexivity.
Defined.

(** X13 at two configurations that differ in mode and paths. *)
Lemma exact_results_config_witness :
  exists r r' : Output,
    check_ortho (py "ATGCATGC") (py "GCATGC")
      (mkProject "./" "sc1.txt" "sc2.txt" 3 false false) = Ok r
    /\ check_ortho (py "ATGCATGC") (py "GCATGC")
         (mkProject "/data" "a.txt" "b.txt" 3 false true) = Ok r'
    /\ count r = count r'
    /\ count_corrected r = count_corrected r'
    /\ n_count r = n_count r'.
Proof.
  apply (exact_results_config
           (mkProject "./" "sc1.txt" "sc2.txt" 3 false false)
           (mkProject "/data" "a.txt" "b.txt" 3 false true)
           (py "ATGCATGC") (py "GCATGC")); reflexivity.
Defined.

(** X14 at sc1 = ATGCATGC, sc2 = GCATGC, segment length 3, linear. *)
Lemma corrected_counts_positions_witness :
  validated (py "GCATGC")
  /\ exists r : Output,
       check_ortho (py "ATGCATGC") (py "GCATGC")
         (mkProject "./" "sc1.txt" "sc2.txt" 3 true false) = Ok r
       /\ 0 <= count_corrected r <= len (py "ATGCATGC")
       /\ count_corrected r <= count r
          <= len (py "ATGCATGC") * len (py "GCATGC").
Proof.
  split; [reflexivity|].
  destruct (corrected_counts_positions
              (mkProject "./" "sc1.txt" "sc2.txt" 3 true false)
              (py "ATGCATGC") (py "GCATGC") eq_refl)
    as (r & Hr & _ & H1 & H2).
  exists r. split; [exact Hr|]. split; [exact H1 | exact H2].
Defined.

(** X15 at sc1 = ATG, sc2 = GC, segment length 0. *)
Lemma check_ortho_zero_n_witness :
  validated (py "GC")
  /\ exists r : Output,
       check_ortho (py "ATG") (py "GC")
         (mkProject "./" "sc1.txt" "sc2.txt" 0 false true) = Ok r
       /\ count r = 6 /\ count_revcompl r = Int 6 /\ count_corrected r = 3.
Proof.
  split; [reflexivity|].
  apply (check_ortho_zero_n
           (mkProject "./" "sc1.txt" "sc2.txt" 0 false true)
           (py "ATG") (py "GC")); reflexivity.
Defined.

(** X16 at the sequence ATGCATGC and segment length 4. *)
Lemma check_ortho_self_witness :
  validated (py "ATGCATGC")
  /\ exists r : Output,
       check_ortho (py "ATGCATGC") (py "ATGCATGC")
         (mkProject "./" "sc1.txt" "sc2.txt" 4 false false) = Ok r
       /\ count_corrected r = 8 /\ 8 <= count r.
Proof.
  split; [reflexivity|].
  apply (check_ortho_self
           (mkProject "./" "sc1.txt" "sc2.txt" 4 false false)
           (py "ATGCATGC")); [reflexivity | reflexivity |].
  split; [simpl; lia | vm_compute; discriminate].
Defined.

(** X17 at sc1 = ATGCATGC, sc2 = GCATGC, segment length 3. *)
Lemma count_symmetric_witness :
  validated (py "ATGCATGC") /\ validated (py "GCATGC")
  /\ exists r r' : Output,
       check_ortho (py "ATGCATGC") (py "GCATGC")
         (mkProject "./" "sc1.txt" "sc2.txt" 3 false true) = Ok r
       /\ check_ortho (py "GCATGC") (py "ATGCATGC")
            (mkProject "./" "sc1.txt" "sc2.txt" 3 false true) = Ok r'
       /\ count r = count r'.
Proof.
  split; [reflexivity|]. split; [reflexivity|].
  apply (count_symmetric
           (mkProject "./" "sc1.txt" "sc2.txt" 3 false true)
           (py "ATGCATGC") (py "GCATGC")); reflexivity.
Defined.

(** X18 at sc2 = ATGCA, segment length 3, linear, position 1. *)
Lemma window2_rev_shifted_witness :
  window2_rev (mkProject "./" "sc1.txt" "sc2.txt" 3 true true)
    (py "GG") (py "ATGCA") 1
  = rev (window2 (mkProject "./" "sc1.txt" "sc2.txt" 3 true true)
           (py "GG") (py "ATGCA") (1 + 1)).
Proof.
  apply (window2_rev_shifted
           (mkProject "./" "sc1.txt" "sc2.txt" 3 true true)
           (py "GG") (py "ATGCA") 1); simpl; lia.
Defined.

(** X19 at sc1 = ATG, sc2 = GCATGC, segment length 4. *)
Lemma circularise_sc_wraps_once_witness :
  fst (circularise_sc (mkProject "./" "sc1.txt" "sc2.txt" 4 false false)
         (py "ATG") (py "GCATGC")) = py "ATG" ++ py "ATG"
  /\ len (snd (circularise_sc
                 (mkProject "./" "sc1.txt" "sc2.txt" 4 false false)
                 (py "ATG") (py "GCATGC"))) = 6 + 4.
Proof.
  destruct (circularise_sc_wraps_once
              (mkProject "./" "sc1.txt" "sc2.txt" 4 false false)
              (py "ATG") (py "GCATGC") eq_refl)
    as (_ & H2 & H1 & _); [simpl; lia|].
  split; [apply H1; vm_compute; discriminate | exact H2].
Defined.

(** X20 at sc1 = AAA, sc2 = AX, segment length 1. *)
Lemma check_ortho_KeyError_witness :
  exists c' : ascii,
    check_ortho (py "AAA") (py "A" ++ "X"%char :: [])
      (mkProject "./" "sc1.txt" "sc2.txt" 1 false true)
    = Raise (KeyError c')
    /\ mem c' (py "ATGC") = false.
Proof.
  apply (check_ortho_KeyError
           (mkProject "./" "sc1.txt" "sc2.txt" 1 false true)
           (py "AAA") (py "A") [] "X"%char);
    try reflexivity; try discriminate.
Defined.

(** X21 at sc1 = GTA, sc2 = CATG, segment length 2, linear. *)
Lemma count_revcompl_counts_reversals_witness :
  validated (py "CATG")
  /\ exists r : Output,
       check_ortho (py "GTA") (py "CATG")
         (mkProject "./" "sc1.txt" "sc2.txt" 2 true true) = Ok r
       /\ count_revcompl r = Int 2.
Proof.
  split; [reflexivity|].
  apply (count_revcompl_counts_reversals
           (mkProject "./" "sc1.txt" "sc2.txt" 2 true true)
           (py "GTA") (py "CATG")); [reflexivity | reflexivity |].
  simpl; lia.
Defined.

(** X22 at sc1 = GCAT, sc2 = ATGC, segment length 4: the linear run finds
    nothing that the circular run misses. *)
Lemma linear_le_circular_witness :
  validated (py "ATGC")
  /\ exists r r' : Output,
       check_ortho (py "GCAT") (py "ATGC")
         (mkProject "./" "sc1.txt" "sc2.txt" 4 true false) = Ok r
       /\ check_ortho (py "GCAT") (py "ATGC")
            (mkProject "./" "sc1.txt" "sc2.txt" 4 false false) = Ok r'
       /\ count r <= count r'
       /\ count_corrected r <= count_corrected r'.
Proof.
  split; [reflexivity|].
  apply (linear_le_circular
           (mkProject "./" "sc1.txt" "sc2.txt" 4 true false)
           (mkProject "./" "sc1.txt" "sc2.txt" 4 false false)
           (py "GCAT") (py "ATGC")); reflexivity.
Defined.
